(** * TabletopObjectRecognizer: model fitting, fit merging and result assembly

    A shallow embedding of [tabletop_object_detector.h]
    (class [tabletop_object_detector::TabletopObjectRecognizer]) and the
    properties its specification states about [objectDetection].

    Conventions of the embedding.

    - [double] and [float] values are rationals ([Q]): arithmetic on
      [double] is the arithmetic of the source expressions without
      rounding, and a [float] read as a [double] keeps its value.  A
      [double] stored in a [float] is rounded to the nearest single
      precision number ([float_of_double]); a [float] is a rational that
      this rounding leaves as it is, of magnitude at most [FLT_MAX]
      ([is_float]).  NaN and infinities are not represented.
    - [size_t] values stored in [cluster_model_indices] are integers in
      [Z]; the casts [(int) i] and the conversion back to [size_t] for the
      comparison are written out ([int_of_size_t], [size_t_of_int]).
      Positions in a [std::vector] are natural numbers.
    - What the header takes from elsewhere is a parameter: [sqrt] of
      <cmath>, [cv::flann::Index] with its default constructor and [build],
      and [ExhaustiveFitDetector::fitBestModels] for the registered
      models.  A call of [fitBestModels] either returns a list of fits or
      raises; an exception that leaves [objectDetection] is a result of
      its own.
    - The [while] loop of the merge runs on fuel; [merge_loop_fuel] shows
      that the fuel [objectDetection] passes is enough.  [merge_after]
      gives the state of the same loop after a number of iterations. *)

From Stdlib Require Import ZArith QArith Lia Lqa Bool Sorted.
From stdpp Require Import base list.

Set Default Proof Using "Type".

(** ** Data *)

(** [cv::Vec3f]: three single precision coordinates. *)
Record Vec3f := mkVec3f { vec_0 : Q; vec_1 : Q; vec_2 : Q }.

(** One cluster, [std::vector<cv::Vec3f>]. *)
Abbreviation Cluster := (list Vec3f).

(** [geometry_msgs::Pose], a position and an orientation quaternion. *)
Module geometry_msgs.
Record Point := mkPoint { x : Q; y : Q; z : Q }.
Record Quaternion := mkQuaternion { qx : Q; qy : Q; qz : Q; qw : Q }.
Record Pose := mkPose { position : Point; orientation : Quaternion }.
End geometry_msgs.
Import geometry_msgs.

(** Modelled from the spec: [ModelFitInfo] is declared in the fitter
    headers that this header includes, which are not part of the sources
    at hand.  The header reads it through [getModelId], [getPose] and
    [getScore] only; the spec's ModelFitCandidate has exactly these three
    components. *)
Record ModelFitInfo := mkModelFitInfo {
  getModelId : Z;
  getPose : Pose;
  getScore : Q
}.

(** What a call of [fitBestModels] does: return its fits, or raise. *)
Inductive FitOutcome :=
| FitReturned (fits : list ModelFitInfo)
| FitThrew.

(** [struct TabletopResult]; the member [confidence_] is a [float]. *)
Record TabletopResult := mkTabletopResult {
  pose_ : Pose;
  confidence_ : Q;
  object_id_ : Z;
  cloud_ : list Vec3f;
  cloud_index_ : nat
}.

(** The data members of the class; [detector_] is the parameter
    [fitBestModels] below. *)
Record TabletopObjectRecognizer := mkRecognizer {
  fit_merge_threshold_ : Q
}.

(** The constructor. *)
Definition TabletopObjectRecognizer_new : TabletopObjectRecognizer :=
  {| fit_merge_threshold_ := 0.02 |}.

(** ** Numbers *)

(** [a < b] on doubles. *)
Definition Qltb (a b : Q) : bool := negb (Qle_bool b a).

(** [(int) i] for a [size_t] [i]: the low 32 bits, read in two's
    complement. *)
Definition int_of_size_t (i : Z) : Z :=
  let r := (i mod 2 ^ 32)%Z in
  if (r <? 2 ^ 31)%Z then r else (r - 2 ^ 32)%Z.

(** An [int] converted to [size_t] (64 bits) by the usual arithmetic
    conversions, as in [cluster_model_indices[i] != (int) i]. *)
Definition size_t_of_int (z : Z) : Z := (z mod 2 ^ 64)%Z.

(** [double getConfidence (double score) const] *)
Definition getConfidence (score : Q) : Q :=
  (1 - (1 - score) * (1 - score))%Q.

(** The integer nearest to [n / d], for [0 < d]; half way between two
    integers, the even one. *)
Definition round_even (n d : Z) : Z :=
  let f := (n / d)%Z in
  match (2 * (n mod d) ?= d)%Z with
  | Lt => f
  | Eq => if Z.even f then f else (f + 1)%Z
  | Gt => (f + 1)%Z
  end.

(** [a / d], not negative, counted in units of [2^-149] (the smallest
    positive [float]) when [a] is the numerator times [2^149], rounded to
    24 significant bits: below [2^24] units the spacing of the [float]s is
    one unit, from there on it is [2^s] units with
    [s = floor (log2 (a / d)) - 23]. *)
Definition round_significand (a d : Z) : Z :=
  let n := (a / d)%Z in
  let s := Z.max (Z.log2 n - 23) 0 in
  (round_even a (d * 2 ^ s) * 2 ^ s)%Z.

(** The conversion of a [double] to [float], as in
    [result.confidence_ = confidence]: the nearest number with a 24 bit
    significand that is a multiple of [2^-149], ties to the even
    significand, with the sign of the argument.  (Beyond the largest
    [float] the code gives an infinity; the result here is the rounded
    number.) *)
Definition float_of_double (q : Q) : Q :=
  Qmake (Z.sgn (Qnum q)
         * round_significand (Z.abs (Qnum q) * 2 ^ 149) (Zpos (Qden q)))
        (2 ^ 149).

(** [FLT_MAX], the largest finite [float]. *)
Definition FLT_MAX : Q := inject_Z ((2 ^ 24 - 1) * 2 ^ 104).

(** The value of a finite [float]: a number that the conversion leaves
    as it is, of magnitude at most [FLT_MAX]. *)
Definition is_float (q : Q) : Prop :=
  (float_of_double q == q /\ - FLT_MAX <= q /\ q <= FLT_MAX)%Q.

(** The local variables of [objectDetection] that the merge and the
    assembly work on. *)
Record Locals {Index : Type} := mkLocals {
  clusters : list Cluster;
  raw_fit_results : list (list ModelFitInfo);
  cluster_model_indices : list Z;
  search : list Index
}.
Arguments Locals : clear implicits.
Arguments mkLocals {Index} _ _ _ _.

(** [cluster_model_indices[i] == (int) i] *)
Definition own_index (indices : list Z) (i : nat) : bool :=
  match indices !! i with
  | Some r => (r =? size_t_of_int (int_of_size_t (Z.of_nat i)))%Z
  | None => false
  end.

(** [raw_fit_results.at(i).empty()] *)
Definition fit_empty (fits : list (list ModelFitInfo)) (i : nat) : bool :=
  match fits !! i with
  | Some (_ :: _) => false
  | _ => true
  end.

(** [raw_fit_results.at(i).at(0)] *)
Definition fit_at (fits : list (list ModelFitInfo)) (i : nat)
  : option ModelFitInfo :=
  fits !! i ≫= head.

(** [int num_models = 1;] *)
Definition num_models : Z := 1.

(** [cluster_model_indices.resize(clusters.size(), -1)] followed by the
    assignments [cluster_model_indices[i] = i] of the first loop. *)
Definition init_indices (n : nat) : list Z :=
  foldl (fun l i => <[i := Z.of_nat i]> l)
        (replicate n (size_t_of_int (-1))) (seq 0 n).

(** [future_results[i].get()] for [i = 0 .. n-1]: the first task that
    raised makes [get] raise. *)
Fixpoint get_all (futures : list FitOutcome)
  : option (list (list ModelFitInfo)) :=
  match futures with
  | [] => Some []
  | FitReturned fits :: rest =>
      match get_all rest with
      | Some l => Some (fits :: l)
      | None => None
      end
  | FitThrew :: _ => None
  end.

(** How one iteration of the merge [while] loop ends. *)
Inductive Step {Index : Type} :=
| Continue (i : nat) (v : Locals Index)
| Throw (v : Locals Index).
Arguments Step : clear implicits.

(** How the merge loop ends. *)
Inductive LoopResult {Index : Type} :=
| LoopDone (v : Locals Index)
| LoopThrew (v : Locals Index)
| LoopOutOfFuel.
Arguments LoopResult : clear implicits.

(** A state of the merge loop: the outer index, the locals, and whether
    the refit has raised. *)
Record LoopState {Index : Type} := mkLoopState {
  loop_i : nat;
  loop_v : Locals Index;
  loop_raised : bool
}.
Arguments LoopState : clear implicits.
Arguments mkLoopState {Index} _ _ _.

(** How a call of [objectDetection] ends: it returns, or an exception
    leaves it; either way the caller sees [clusters] and [results], both
    passed by reference. *)
Inductive CallResult :=
| Returns (clusters : list Cluster) (results : list TabletopResult)
| Throws (clusters : list Cluster) (results : list TabletopResult)
| OutOfFuel.

(** Fuel for the merge loop on [n] clusters. *)
Definition merge_fuel (n : nat) : nat := 2 * n + 1.

Section Recognizer.
(** [sqrt] of <cmath>. *)
Variable sqrt : Q -> Q.
(** [cv::flann::Index], its default constructor, and
    [build(features, KDTreeIndexParams())] on the points of a cluster. *)
Variable Index : Type.
Variable Index_new : Index.
Variable build : Cluster -> Index.
(** [detector_.fitBestModels(cluster, max_models, search, cutoff)] *)
Variable fitBestModels : Cluster -> Z -> Index -> Q -> FitOutcome.

(** [double fitDistance(const ModelFitInfo &m1, const ModelFitInfo &m2)] *)
Definition fitDistance (m1 m2 : ModelFitInfo) : Q :=
  let dx := (x (position (getPose m1)) - x (position (getPose m2)))%Q in
  let dy := (y (position (getPose m1)) - y (position (getPose m2)))%Q in
  let d := (dx * dx + dy * dy)%Q in
  sqrt d.

Variable this : TabletopObjectRecognizer.
(** The parameter [float confidence_cutoff]. *)
Variable confidence_cutoff : Q.

(** The test that leaves the inner [for] loop by [break]:
    [!raw_fit_results.at(j).empty() &&
     fitDistance(raw_fit_results.at(i).at(0), raw_fit_results.at(j).at(0))
       < fit_merge_threshold_].
    [at] is in range wherever the loop evaluates it. *)
Definition close_fit (v : Locals Index) (i j : nat) : bool :=
  negb (fit_empty (raw_fit_results v) j) &&
  match fit_at (raw_fit_results v) i, fit_at (raw_fit_results v) j with
  | Some mi, Some mj => Qltb (fitDistance mi mj) (fit_merge_threshold_ this)
  | _, _ => false
  end.

(** The inner loop [for (j = i + 1; j < clusters.size(); j++)], started
    at [j] with [remaining] indices to go; the value is [j] when the
    loop is left. *)
Fixpoint inner_scan (v : Locals Index) (i j remaining : nat) : nat :=
  match remaining with
  | O => j
  | S r =>
      if negb (own_index (cluster_model_indices v) j)
      then inner_scan v i (S j) r
      else if close_fit v i j then j
      else inner_scan v i (S j) r
  end.

(** The inner loop stops at [j]: [j] still points at itself and
    [close_fit] holds. *)
Definition qualifies (v : Locals Index) (i j : nat) : bool :=
  own_index (cluster_model_indices v) j && close_fit v i j.

(** The three statements that merge cluster [j] into cluster [i]:
    [clusters[i].insert(clusters[i].end(), clusters[j].begin(),
    clusters[j].end())], [raw_fit_results.at(j).clear()] and
    [cluster_model_indices[j] = i]. *)
Definition absorb (i j : nat) (v : Locals Index) : Locals Index :=
  mkLocals (<[i := (clusters v !!! i) ++ (clusters v !!! j)]> (clusters v))
           (<[j := []]> (raw_fit_results v))
           (<[j := Z.of_nat i]> (cluster_model_indices v))
           (search v).

(** [raw_fit_results.at(i) = detector_.fitBestModels(clusters[i],
    std::max(1, num_models), search[i], confidence_cutoff)]; [None] when
    the call raises. *)
Definition refit (i : nat) (v : Locals Index) : option (Locals Index) :=
  match fitBestModels (clusters v !!! i) (Z.max 1 num_models)
                      (nth i (search v) Index_new) confidence_cutoff with
  | FitReturned fits =>
      Some (mkLocals (clusters v) (<[i := fits]> (raw_fit_results v))
                     (cluster_model_indices v) (search v))
  | FitThrew => None
  end.

(** The body of [while (i < clusters.size())]. *)
Definition merge_iteration (i : nat) (v : Locals Index) : Step Index :=
  let n := length (clusters v) in
  if negb (own_index (cluster_model_indices v) i)
     || fit_empty (raw_fit_results v) i
  then Continue (i + 1) v
  else
    let j := inner_scan v i (i + 1) (n - (i + 1)) in
    if j <? n then
      let v' := absorb i j v in
      match refit i v' with
      | Some v'' => Continue i v''
      | None => Throw v'
      end
    else Continue (i + 1) v.

(** [while (i < clusters.size()) { ... }] *)
Fixpoint merge_loop (fuel i : nat) (v : Locals Index) : LoopResult Index :=
  match fuel with
  | O => LoopOutOfFuel
  | S fuel' =>
      if i <? length (clusters v) then
        match merge_iteration i v with
        | Continue i' v' => merge_loop fuel' i' v'
        | Throw v' => LoopThrew v'
        end
      else LoopDone v
  end.

(** The body of the last loop: the result pushed for index [i], if
    any.  The test is on the [double] [confidence]; the member
    [confidence_] is a [float]. *)
Definition assemble_one (v : Locals Index) (i : nat)
  : option TabletopResult :=
  if negb (own_index (cluster_model_indices v) i)
     || fit_empty (raw_fit_results v) i
  then None
  else
    match fit_at (raw_fit_results v) i with
    | Some m =>
        let confidence := getConfidence (getScore m) in
        if Qltb confidence confidence_cutoff then None
        else Some {| object_id_ := getModelId m;
                     pose_ := getPose m;
                     confidence_ := float_of_double confidence;
                     cloud_ := clusters v !!! i;
                     cloud_index_ := i |}
    | None => None
    end.

(** [for (size_t i = 0; i < cluster_model_indices.size(); i++)] with
    [results.push_back(result)]. *)
Definition assemble (v : Locals Index) (results : list TabletopResult)
  : list TabletopResult :=
  foldl (fun res i =>
           match assemble_one v i with
           | Some r => res ++ [r]
           | None => res
           end)
        results (seq 0 (length (cluster_model_indices v))).

(** The first loop: the search index of every cluster and the fitting
    task launched on it. *)
Definition launch (cls : list Cluster) : list Index * list FitOutcome :=
  let searches := map build cls in
  (searches,
   zip_with (fun c s => fitBestModels c (Z.max 1 num_models) s
                                      confidence_cutoff)
            cls searches).

(** The local variables once every future has been read. *)
Definition fitted (cls : list Cluster) : option (Locals Index) :=
  let '(searches, futures) := launch cls in
  match get_all futures with
  | Some raw => Some (mkLocals cls raw (init_indices (length cls)) searches)
  | None => None
  end.

(** The local variables when the last loop is entered. *)
Definition merged (cls : list Cluster) (perform_fit_merge : bool)
  : option (LoopResult Index) :=
  match fitted cls with
  | Some v =>
      Some (if perform_fit_merge
            then merge_loop (merge_fuel (length cls)) 0 v
            else LoopDone v)
  | None => None
  end.

(** [void objectDetection(clusters, confidence_cutoff, perform_fit_merge,
    results)] *)
Definition objectDetection (cls : list Cluster) (perform_fit_merge : bool)
                           (results : list TabletopResult) : CallResult :=
  match merged cls perform_fit_merge with
  | None => Throws cls results
  | Some (LoopDone v) => Returns (clusters v) (assemble v results)
  | Some (LoopThrew v) => Throws (clusters v) results
  | Some LoopOutOfFuel => OutOfFuel
  end.

(** The index merged into [i] by the iteration that starts in [(i, v)],
    if that iteration merges. *)
Definition merged_index (i : nat) (v : Locals Index) : option nat :=
  let n := length (clusters v) in
  if negb (own_index (cluster_model_indices v) i)
     || fit_empty (raw_fit_results v) i
  then None
  else
    let j := inner_scan v i (i + 1) (n - (i + 1)) in
    if j <? n then Some j else None.

(** The merge loop as a machine: one iteration from a state of the
    loop.  A state in which the refit raised, and a state with
    [i >= clusters.size()], are final. *)
Definition merge_next (s : LoopState Index) : LoopState Index :=
  if loop_raised s then s
  else if loop_i s <? length (clusters (loop_v s)) then
    match merge_iteration (loop_i s) (loop_v s) with
    | Continue i' v' => mkLoopState i' v' false
    | Throw v' => mkLoopState (loop_i s) v' true
    end
  else s.

(** The three ways an iteration goes from a state [s] that is not
    final: it advances [i], it merges and refits, or it merges and the
    refit raises. *)
Inductive next_case (s : LoopState Index) : Prop :=
| next_advance :
    merged_index (loop_i s) (loop_v s) = None ->
    merge_next s = mkLoopState (loop_i s + 1) (loop_v s) false ->
    next_case s
| next_merge (j : nat) (v' : Locals Index) :
    merged_index (loop_i s) (loop_v s) = Some j ->
    refit (loop_i s) (absorb (loop_i s) j (loop_v s)) = Some v' ->
    merge_next s = mkLoopState (loop_i s) v' false ->
    next_case s
| next_throw (j : nat) :
    merged_index (loop_i s) (loop_v s) = Some j ->
    refit (loop_i s) (absorb (loop_i s) j (loop_v s)) = None ->
    merge_next s
    = mkLoopState (loop_i s) (absorb (loop_i s) j (loop_v s)) true ->
    next_case s.

(** The state of the loop after [t] iterations. *)
Definition merge_after (t : nat) (s : LoopState Index) : LoopState Index :=
  Nat.iter t merge_next s.

(** The index that the next iteration merges away, if it merges. *)
Definition merge_event (s : LoopState Index) : option nat :=
  if loop_raised s then None
  else if loop_i s <? length (clusters (loop_v s))
       then merged_index (loop_i s) (loop_v s)
       else None.

(** The indices merged away by the first [t] iterations from [s]. *)
Fixpoint merged_away (t : nat) (s : LoopState Index) : list nat :=
  match t with
  | O => []
  | S t' =>
      match merge_event s with
      | Some j => j :: merged_away t' (merge_next s)
      | None => merged_away t' (merge_next s)
      end
  end.
End Recognizer.

Arguments fitDistance sqrt m1 m2 : assert.
Arguments close_fit sqrt {Index} this v i j.
Arguments qualifies sqrt {Index} this v i j.
Arguments inner_scan sqrt {Index} this v i j remaining.
Arguments absorb {Index} i j v.
Arguments refit {Index} Index_new fitBestModels confidence_cutoff i v.
Arguments merge_iteration sqrt {Index} Index_new fitBestModels this
  confidence_cutoff i v.
Arguments merge_loop sqrt {Index} Index_new fitBestModels this
  confidence_cutoff fuel i v.
Arguments merge_next sqrt {Index} Index_new fitBestModels this
  confidence_cutoff s.
Arguments merge_after sqrt {Index} Index_new fitBestModels this
  confidence_cutoff t s.
Arguments next_case sqrt {Index} Index_new fitBestModels this
  confidence_cutoff s.
Arguments next_advance sqrt {Index} Index_new fitBestModels this
  confidence_cutoff s.
Arguments next_merge sqrt {Index} Index_new fitBestModels this
  confidence_cutoff s.
Arguments next_throw sqrt {Index} Index_new fitBestModels this
  confidence_cutoff s.
Arguments merge_event sqrt {Index} this s.
Arguments merged_away sqrt {Index} Index_new fitBestModels this
  confidence_cutoff t s.
Arguments merged_index sqrt {Index} this i v.
Arguments assemble_one {Index} confidence_cutoff v i.
Arguments assemble {Index} confidence_cutoff v results.
Arguments launch {Index} build fitBestModels confidence_cutoff cls.
Arguments fitted {Index} build fitBestModels confidence_cutoff cls.
Arguments merged sqrt {Index} Index_new build fitBestModels this
  confidence_cutoff cls perform_fit_merge.
Arguments objectDetection sqrt {Index} Index_new build fitBestModels this
  confidence_cutoff cls perform_fit_merge results.

(** ** Measures and invariants of the merge loop *)

(** The number of indices below [k] that point at themselves. *)
Fixpoint count_own (indices : list Z) (k : nat) : nat :=
  match k with
  | O => 0
  | S k' => (if own_index indices k' then 1 else 0) + count_own indices k'
  end.

(** The vectors of the locals all have [n] entries. *)
Definition sized {Index : Type} (n : nat) (v : Locals Index) : Prop :=
  length (clusters v) = n /\ length (raw_fit_results v) = n /\
  length (cluster_model_indices v) = n /\ length (search v) = n.

(** Every index points at itself or at an index that points at itself,
    that is smaller, and that the outer loop has reached. *)
Definition one_hop (i : nat) (indices : list Z) : Prop :=
  forall k r, indices !! k = Some r ->
    r = Z.of_nat k \/
    exists m, r = Z.of_nat m /\ m <= i /\ m < k /\
              indices !! m = Some (Z.of_nat m).

(** The invariant of the merge loop on [n] clusters. *)
Definition merge_inv {Index : Type} (n : nat) (s : LoopState Index) : Prop :=
  sized n (loop_v s) /\
  one_hop (loop_i s) (cluster_model_indices (loop_v s)).

(** A fitter that never raises. *)
Definition returning {Index : Type}
    (fit : Cluster -> Z -> Index -> Q -> list ModelFitInfo)
    (c : Cluster) (max_models : Z) (s : Index) (cutoff : Q) : FitOutcome :=
  FitReturned (fit c max_models s cutoff).

Section Separation.
Context (sqrt : Q -> Q) {Index : Type} (build : Cluster -> Index).
Context (fit : Cluster -> Z -> Index -> Q -> list ModelFitInfo).
Context (this : TabletopObjectRecognizer) (confidence_cutoff : Q).
Context (cls : list Cluster).

(** The fit results of the input clusters, as the fitting tasks
    return them. *)
Definition first_fits : list (list ModelFitInfo) :=
  map (fun c => fit c 1%Z (build c) confidence_cutoff) cls.

(** An index past [i] that points at itself still has its first fit
    result. *)
Definition fresh (s : LoopState Index) : Prop :=
  forall k, loop_i s < k ->
    own_index (cluster_model_indices (loop_v s)) k = true ->
    raw_fit_results (loop_v s) !! k = first_fits !! k.

(** The fit result of an index that points at itself is the fit of its
    cluster as it is now, with the search index of the input cluster. *)
Definition refitted (s : LoopState Index) : Prop :=
  forall k, k < length cls ->
    own_index (cluster_model_indices (loop_v s)) k = true ->
    raw_fit_results (loop_v s) !! k
    = Some (fit (clusters (loop_v s) !!! k) 1%Z (build (cls !!! k))
                confidence_cutoff).

(** The fit of an index [a] that the outer loop has passed is not
    closer than the threshold to the first fit of any later index that
    still points at itself. *)
Definition separated (s : LoopState Index) : Prop :=
  forall a b ma mb, a < loop_i s -> a < b ->
    own_index (cluster_model_indices (loop_v s)) a = true ->
    own_index (cluster_model_indices (loop_v s)) b = true ->
    fit_at (raw_fit_results (loop_v s)) a = Some ma ->
    fit_at first_fits b = Some mb ->
    Qltb (fitDistance sqrt ma mb) (fit_merge_threshold_ this) = false.

(** The invariant of the merge loop with a fitter that returns. *)
Definition separation_inv (s : LoopState Index) : Prop :=
  merge_inv (length cls) s /\
  loop_raised s = false /\
  search (loop_v s) = map build cls /\
  fresh s /\ refitted s /\ separated s.
End Separation.

(** ** Instances for the parameters

    Concrete values for what the header takes from elsewhere, on which the
    functions above run. *)

(** The square root rounded down to a multiple of [10^-9]. *)
Definition sqrt_Q (q : Q) : Q :=
  Qmake (Z.sqrt (Qnum q * 10 ^ 18 / Zpos (Qden q))) (10 ^ 9).

(** A search index that is the list of points it was built from. *)
Definition PointIndex : Type := list Vec3f.
Definition PointIndex_new : PointIndex := [].
Definition PointIndex_build (c : Cluster) : PointIndex := c.

(** The mean of a list of numbers. *)
Definition mean (l : list Q) : Q :=
  (foldr Qplus 0 l / inject_Z (Z.of_nat (length l)))%Q.

(** A fit of the model [5], upright, at the centroid of the points, with
    score [0.9]. *)
Definition centroid_fit (c : Cluster) : ModelFitInfo :=
  {| getModelId := 5;
     getPose := {| position := {| x := mean (map vec_0 c);
                                  y := mean (map vec_1 c);
                                  z := mean (map vec_2 c) |};
                   orientation := {| qx := 0; qy := 0; qz := 0; qw := 1 |} |};
     getScore := 0.9 |}.

(** A fitter that places one model at the centroid of the cluster and
    finds nothing in a cluster without points; it returns at most
    [max_models] fits. *)
Definition centroid_fitter (c : Cluster) (max_models : Z) (s : PointIndex)
                           (cutoff : Q) : list ModelFitInfo :=
  match c with
  | [] => []
  | _ :: _ => take (Z.to_nat max_models) [centroid_fit c]
  end.

(** The same fitter, raising on a cluster without points. *)
Definition strict_fitter (c : Cluster) (max_models : Z) (s : PointIndex)
                         (cutoff : Q) : FitOutcome :=
  match c with
  | [] => FitThrew
  | _ :: _ => FitReturned (centroid_fitter c max_models s cutoff)
  end.

(** A cluster of one point on the x axis. *)
Definition point_at (px : Q) : Cluster := [mkVec3f px 0 0].

(** [objectDetection] on the instances above. *)
Definition detect (fit : Cluster -> Z -> PointIndex -> Q -> FitOutcome)
    (cutoff : Q) (cls : list Cluster) (perform_fit_merge : bool)
    (results : list TabletopResult) : CallResult :=
  objectDetection sqrt_Q PointIndex_new PointIndex_build fit
                  TabletopObjectRecognizer_new cutoff
                  cls perform_fit_merge results.

(** Scenario A of the specification: two fragments whose fits are [0.01]
    apart. *)
Definition scenario_A : list Cluster := [point_at 0; point_at 0.01].

(** Three fragments: the fit of the second is [0.025] from the first, the
    fit of the third [0.015]. *)
Definition three_fragments : list Cluster :=
  [point_at 0; point_at 0.025; point_at 0.015].

(** Three fragments: the fits of the second and of the third are both
    within [0.02] of the first, on opposite sides. *)
Definition two_sided : list Cluster :=
  [point_at 0; point_at (-0.019); point_at 0.015].

(** Two clusters, the first without points. *)
Definition empty_first : list Cluster := [[]; point_at 0].

(** The fitter with the failure handling that the specification
    describes: a call that raises counts as an empty list of fits. *)
Definition failure_as_empty
    (fit : Cluster -> Z -> PointIndex -> Q -> FitOutcome)
    (c : Cluster) (max_models : Z) (s : PointIndex) (cutoff : Q)
  : FitOutcome :=
  match fit c max_models s cutoff with
  | FitReturned fits => FitReturned fits
  | FitThrew => FitReturned []
  end.

(** The cluster indices of the results of a call that returned. *)
Definition returned_indices (r : CallResult) : option (list nat) :=
  match r with
  | Returns _ results => Some (map cloud_index_ results)
  | _ => None
  end.

(** The locals of [detect] when the merge loop starts, for the fitter
    [centroid_fitter]. *)
Definition start (cutoff : Q) (cls : list Cluster) : LoopState PointIndex :=
  mkLoopState 0
    (mkLocals cls
       (first_fits PointIndex_build centroid_fitter cutoff cls)
       (init_indices (length cls)) (map PointIndex_build cls))
    false.

(** ** The distance of a fit to a cluster *)

(** [std::min(a, b)]: [b] when [b < a], else [a]. *)
Definition std_min (a b : Q) : Q := if Qltb b a then b else a.

Section FitClusterDistance.
(** [sqrt] of <cmath>. *)
Variable sqrt : Q -> Q.
(** The point type of the template argument [PointCloudType], read
    through its members [x] and [y]. *)
Variable PointT : Type.
Variable point_x : PointT -> Q.
Variable point_y : PointT -> Q.

(** The value [d] of one iteration of the loop of [fitClusterDistance]:
    the square of the planar distance of a point to the position of the
    fit. *)
Definition point_d (m : ModelFitInfo) (p : PointT) : Q :=
  let mx := x (position (getPose m)) in
  let my := y (position (getPose m)) in
  let dx := (point_x p - mx)%Q in
  let dy := (point_y p - my)%Q in
  (dx * dx + dy * dy)%Q.

(** The loop of [fitClusterDistance] over the points, from the value
    [dist]: [dist = std::min(d, dist)]. *)
Definition scan_points (m : ModelFitInfo) (dist : Q) (points : list PointT)
  : Q :=
  foldl (fun dist p => std_min (point_d m p) dist) dist points.

(** [template<class PointCloudType> double
    fitClusterDistance(const ModelFitInfo &m, const PointCloudType &cluster)],
    on [cluster.points]. *)
Definition fitClusterDistance (m : ModelFitInfo) (points : list PointT) : Q :=
  let dist := (100 * 100)%Q in
  sqrt (scan_points m dist points).
End FitClusterDistance.

Arguments point_d {PointT} point_x point_y m p.
Arguments scan_points {PointT} point_x point_y m dist points.
Arguments fitClusterDistance sqrt {PointT} point_x point_y m points.

(** ** More about the merge loop *)

(** A state of the merge loop from which no iteration runs: the refit
    has raised, or [i] has reached [clusters.size()]. *)
Definition final {Index : Type} (s : LoopState Index) : Prop :=
  loop_raised s = true \/ length (clusters (loop_v s)) <= loop_i s.

(** The indices that point at [k]. *)
Definition members (indices : list Z) (k : nat) : list nat :=
  List.filter (fun m => match indices !! m with
                        | Some r => (r =? Z.of_nat k)%Z
                        | None => false
                        end)
              (seq 0 (length indices)).

(** The points of the input clusters [cls] whose indices point at [k],
    cluster after cluster. *)
Definition gathered (cls : list Cluster) (indices : list Z) (k : nat)
  : list Vec3f :=
  flat_map (fun m => cls !!! m) (members indices k).

(** The clusters of a state of the merge loop are made of the input
    clusters [cls]: a cluster whose index points at itself has the points
    of the clusters that point at it, and every other cluster, and every
    cluster after [i], is the input cluster. *)
Definition gathers {Index : Type} (cls : list Cluster) (s : LoopState Index)
  : Prop :=
  forall k, k < length cls ->
    (cluster_model_indices (loop_v s) !! k = Some (Z.of_nat k) ->
     clusters (loop_v s) !!! k
     ≡ₚ gathered cls (cluster_model_indices (loop_v s)) k) /\
    (cluster_model_indices (loop_v s) !! k <> Some (Z.of_nat k)
     \/ loop_i s < k ->
     clusters (loop_v s) !! k = cls !! k).

(** Two clusters whose fits are [1] apart. *)
Definition far_apart : list Cluster := [point_at 0; point_at 1].

(** A fit at a position in the plane, and points in the plane as pairs
    of coordinates. *)
Definition fit_at_xy (px py : Q) : ModelFitInfo :=
  {| getModelId := 0;
     getPose := {| position := {| x := px; y := py; z := 0 |};
                   orientation := {| qx := 0; qy := 0; qz := 0; qw := 1 |} |};
     getScore := 1 |}.

(** ** Numbers and indices *)

Lemma Qltb_lt (a b : Q) : Qltb a b = true <-> (a < b)%Q.
Proof.
  unfold Qltb. rewrite negb_true_iff, <- not_true_iff_false, Qle_bool_iff.
  split; [apply Qnot_le_lt | apply Qlt_not_le].
Qed.

(** *** Rounding to single precision *)

Lemma round_even_ge (n d z : Z) :
  (0 < d)%Z -> (z * d <= n)%Z -> (z <= round_even n d)%Z.
Proof.
  intros Hd Hz. unfold round_even.
  pose proof (Z.div_mod n d ltac:(lia)) as Hn.
  pose proof (Z.mod_pos_bound n d Hd) as Hr.
  assert (z <= n / d)%Z by nia.
  destruct (2 * (n mod d) ?= d)%Z; [destruct (Z.even (n / d))|..]; lia.
Qed.

Lemma round_even_le (n d z : Z) :
  (0 < d)%Z -> (n <= z * d)%Z -> (round_even n d <= z)%Z.
Proof.
  intros Hd Hz. unfold round_even.
  pose proof (Z.div_mod n d ltac:(lia)) as Hn.
  pose proof (Z.mod_pos_bound n d Hd) as Hr.
  destruct (Z.compare_spec (2 * (n mod d)) d) as [He|Hlt|Hgt].
  - assert (n / d + 1 <= z)%Z by nia. destruct (Z.even (n / d)); lia.
  - destruct (Z.eq_dec (n mod d)%Z 0%Z) as [H0|H0]; nia.
  - assert (n / d + 1 <= z)%Z by nia. lia.
Qed.

Lemma round_significand_0 (d : Z) : (0 < d)%Z -> round_significand 0 d = 0%Z.
Proof.
  intros Hd. unfold round_significand. rewrite Z.div_0_l by lia.
  change (Z.max (Z.log2 0 - 23) 0) with 0%Z. rewrite Z.pow_0_r, !Z.mul_1_r.
  unfold round_even. rewrite Z.div_0_l, Z.mod_0_l by lia.
  destruct d; [lia|reflexivity|lia].
Qed.

Lemma round_significand_form (a d : Z) :
  (0 <= a)%Z -> (0 < d)%Z ->
  exists m j, round_significand a d = (m * 2 ^ j)%Z /\
    (0 <= m <= 2 ^ 24)%Z /\ (0 <= j)%Z /\
    (j = Z.max (Z.log2 (a / d) - 23) 0).
Proof.
  intros Ha Hd. unfold round_significand.
  set (n := (a / d)%Z). set (s := Z.max (Z.log2 n - 23) 0).
  exists (round_even a (d * 2 ^ s)), s.
  assert (0 <= s)%Z as Hs by lia.
  assert (0 < 2 ^ s)%Z as Hp by (apply Z.pow_pos_nonneg; lia).
  split; [reflexivity|]. split; [|split; [exact Hs|reflexivity]]. split.
  - apply round_even_ge; [nia|lia].
  - apply round_even_le; [nia|].
    pose proof (Z.div_mod a d ltac:(lia)) as Hn.
    pose proof (Z.mod_pos_bound a d Hd) as Hr. fold n in Hn.
    assert (0 <= n)%Z as Hn0 by (apply Z.div_pos; lia).
    assert (n + 1 <= 2 ^ 24 * 2 ^ s)%Z as Hb.
    { rewrite <- Z.pow_add_r by lia.
      destruct (Z.eq_dec n 0%Z) as [->|Hnz].
      - assert (0 < 2 ^ (24 + s))%Z by (apply Z.pow_pos_nonneg; lia). lia.
      - pose proof (Z.log2_spec n ltac:(lia)) as [_ Hu].
        assert (2 ^ Z.succ (Z.log2 n) <= 2 ^ (24 + s))%Z
          by (apply Z.pow_le_mono_r; lia).
        lia. }
    nia.
Qed.

Lemma round_significand_low (a d m j : Z) :
  (0 <= a)%Z -> (0 < d)%Z -> (0 <= m <= 2 ^ 24)%Z -> (0 <= j)%Z ->
  (m * 2 ^ j * d <= a)%Z -> (m * 2 ^ j <= round_significand a d)%Z.
Proof.
  intros Ha Hd Hm Hj Hle. unfold round_significand.
  set (n := (a / d)%Z). set (s := Z.max (Z.log2 n - 23) 0).
  assert (0 <= s)%Z as Hs by lia.
  assert (0 < 2 ^ s)%Z as Hp by (apply Z.pow_pos_nonneg; lia).
  assert (0 < 2 ^ j)%Z as Hpj by (apply Z.pow_pos_nonneg; lia).
  destruct (Z.le_gt_cases s j) as [Hsj|Hjs].
  - assert (2 ^ j = 2 ^ (j - s) * 2 ^ s)%Z as Hsplit
      by (rewrite <- Z.pow_add_r by lia; f_equal; lia).
    assert (m * 2 ^ (j - s) <= round_even a (d * 2 ^ s))%Z
      by (apply round_even_ge; [nia|]; rewrite Hsplit in Hle; lia).
    rewrite Hsplit. nia.
  - assert (s = Z.log2 n - 23)%Z as Hs' by lia.
    pose proof (Z.div_mod a d ltac:(lia)) as Hn.
    pose proof (Z.mod_pos_bound a d Hd) as Hr. fold n in Hn.
    assert (0 < n)%Z as Hn0.
    { destruct (Z.le_gt_cases n 0) as [Hn0|]; [|assumption].
      rewrite (Z.log2_nonpos n Hn0) in Hs'. lia. }
    pose proof (Z.log2_spec n Hn0) as [Hl _].
    assert (2 ^ Z.log2 n = 2 ^ 23 * 2 ^ s)%Z as Hls
      by (rewrite <- Z.pow_add_r by lia; f_equal; lia).
    assert (2 ^ 24 * 2 ^ j <= 2 ^ 23 * 2 ^ s)%Z as Hjs'.
    { rewrite <- !Z.pow_add_r by lia. apply Z.pow_le_mono_r; lia. }
    assert (2 ^ 23 <= round_even a (d * 2 ^ s))%Z
      by (apply round_even_ge; nia).
    nia.
Qed.

Lemma round_significand_high (a d m j : Z) :
  (0 <= a)%Z -> (0 < d)%Z -> (0 <= m <= 2 ^ 24)%Z -> (0 <= j)%Z ->
  (a <= m * 2 ^ j * d)%Z -> (round_significand a d <= m * 2 ^ j)%Z.
Proof.
  intros Ha Hd Hm Hj Hle. unfold round_significand.
  set (n := (a / d)%Z). set (s := Z.max (Z.log2 n - 23) 0).
  assert (0 <= s)%Z as Hs by lia.
  assert (0 < 2 ^ s)%Z as Hp by (apply Z.pow_pos_nonneg; lia).
  assert (0 < 2 ^ j)%Z as Hpj by (apply Z.pow_pos_nonneg; lia).
  destruct (Z.le_gt_cases s j) as [Hsj|Hjs].
  - assert (2 ^ j = 2 ^ (j - s) * 2 ^ s)%Z as Hsplit
      by (rewrite <- Z.pow_add_r by lia; f_equal; lia).
    assert (round_even a (d * 2 ^ s) <= m * 2 ^ (j - s))%Z
      by (apply round_even_le; [nia|]; rewrite Hsplit in Hle; lia).
    rewrite Hsplit. nia.
  - assert (s = Z.log2 n - 23)%Z as Hs' by lia.
    pose proof (Z.div_mod a d ltac:(lia)) as Hn.
    pose proof (Z.mod_pos_bound a d Hd) as Hr. fold n in Hn.
    assert (0 < n)%Z as Hn0.
    { destruct (Z.le_gt_cases n 0) as [Hn0|]; [|assumption].
      rewrite (Z.log2_nonpos n Hn0) in Hs'. lia. }
    pose proof (Z.log2_spec n Hn0) as [Hl _].
    assert (2 ^ Z.log2 n = 2 ^ 23 * 2 ^ s)%Z as Hls
      by (rewrite <- Z.pow_add_r by lia; f_equal; lia).
    assert (2 ^ 24 * 2 ^ j <= 2 ^ 23 * 2 ^ s)%Z as Hjs'.
    { rewrite <- !Z.pow_add_r by lia. apply Z.pow_le_mono_r; lia. }
    assert (n <= m * 2 ^ j)%Z as Hnm by nia.
    assert (m * 2 ^ j = 2 ^ 23 * 2 ^ s)%Z as Hg by nia.
    assert (a = 2 ^ 23 * (d * 2 ^ s))%Z as Hae by nia.
    assert (round_even a (d * 2 ^ s) <= 2 ^ 23)%Z
      by (apply round_even_le; [nia|lia]).
    nia.
Qed.

Lemma float_of_double_low (g c : Q) :
  (float_of_double g <= c)%Q -> (float_of_double g <= float_of_double c)%Q.
Proof.
  destruct g as [ng dg], c as [nc dc]. unfold Qle, float_of_double.
  cbn [Qnum Qden].
  change (Z.pos (2 ^ 149)) with (2 ^ 149)%Z.
  assert (0 < 2 ^ 149)%Z as HK by reflexivity.
  set (K := (2 ^ 149)%Z) in *. clearbody K.
  destruct (round_significand_form (Z.abs ng * K) (Z.pos dg))
    as (m & j & HG & Hm & Hj & _); [nia|lia|].
  destruct (round_significand_form (Z.abs nc * K) (Z.pos dc))
    as (m' & j' & HC & Hm' & Hj' & _); [nia|lia|].
  assert (0 <= round_significand (Z.abs ng * K) (Z.pos dg))%Z as Hg0
    by (rewrite HG; apply Z.mul_nonneg_nonneg; [lia|apply Z.pow_nonneg; lia]).
  assert (0 <= round_significand (Z.abs nc * K) (Z.pos dc))%Z as Hc0
    by (rewrite HC; apply Z.mul_nonneg_nonneg; [lia|apply Z.pow_nonneg; lia]).
  clear HC m' j' Hm' Hj'.
  pose proof (round_significand_low (Z.abs nc * K) (Z.pos dc) m j
    ltac:(nia) ltac:(lia) Hm Hj) as Hfirst.
  pose proof (round_significand_high (Z.abs nc * K) (Z.pos dc) m j
    ltac:(nia) ltac:(lia) Hm Hj) as Hsecond.
  rewrite <- HG in Hfirst, Hsecond. clear HG Hm Hj.
  set (G := round_significand (Z.abs ng * K) (Z.pos dg)) in *. clearbody G.
  set (C := round_significand (Z.abs nc * K) (Z.pos dc)) in *. clearbody C.
  pose proof (Pos2Z.is_pos dc) as Hdc. set (D := Z.pos dc) in *. clearbody D.
  intros Hle.
  destruct nc as [|pc|pc]; destruct ng as [|pg|pg]; cbn [Z.sgn Z.abs] in *;
    nia.
Qed.

Lemma float_of_double_high (g c : Q) :
  (c <= float_of_double g)%Q -> (float_of_double c <= float_of_double g)%Q.
Proof.
  destruct g as [ng dg], c as [nc dc]. unfold Qle, float_of_double.
  cbn [Qnum Qden].
  change (Z.pos (2 ^ 149)) with (2 ^ 149)%Z.
  assert (0 < 2 ^ 149)%Z as HK by reflexivity.
  set (K := (2 ^ 149)%Z) in *. clearbody K.
  destruct (round_significand_form (Z.abs ng * K) (Z.pos dg))
    as (m & j & HG & Hm & Hj & _); [nia|lia|].
  destruct (round_significand_form (Z.abs nc * K) (Z.pos dc))
    as (m' & j' & HC & Hm' & Hj' & _); [nia|lia|].
  assert (0 <= round_significand (Z.abs ng * K) (Z.pos dg))%Z as Hg0
    by (rewrite HG; apply Z.mul_nonneg_nonneg; [lia|apply Z.pow_nonneg; lia]).
  assert (0 <= round_significand (Z.abs nc * K) (Z.pos dc))%Z as Hc0
    by (rewrite HC; apply Z.mul_nonneg_nonneg; [lia|apply Z.pow_nonneg; lia]).
  clear HC m' j' Hm' Hj'.
  pose proof (round_significand_high (Z.abs nc * K) (Z.pos dc) m j
    ltac:(nia) ltac:(lia) Hm Hj) as Hfirst.
  pose proof (round_significand_low (Z.abs nc * K) (Z.pos dc) m j
    ltac:(nia) ltac:(lia) Hm Hj) as Hsecond.
  rewrite <- HG in Hfirst, Hsecond. clear HG Hm Hj.
  set (G := round_significand (Z.abs ng * K) (Z.pos dg)) in *. clearbody G.
  set (C := round_significand (Z.abs nc * K) (Z.pos dc)) in *. clearbody C.
  pose proof (Pos2Z.is_pos dc) as Hdc. set (D := Z.pos dc) in *. clearbody D.
  intros Hle.
  destruct nc as [|pc|pc]; destruct ng as [|pg|pg]; cbn [Z.sgn Z.abs] in *;
    nia.
Qed.


(** Rounding does not cross a [float]. *)
Lemma float_le_float_of_double (g c : Q) :
  is_float g -> (g <= c)%Q -> (g <= float_of_double c)%Q.
Proof.
  intros (Hg & _) Hle. rewrite <- Hg.
  apply float_of_double_low. rewrite Hg. exact Hle.
Qed.

Lemma float_of_double_le_float (g c : Q) :
  is_float g -> (c <= g)%Q -> (float_of_double c <= g)%Q.
Proof.
  intros (Hg & _) Hle. rewrite <- Hg.
  apply float_of_double_high. rewrite Hg. exact Hle.
Qed.

Lemma is_float_0 : is_float 0.
Proof. split; [reflexivity | split; intros H; discriminate H]. Qed.

Lemma is_float_1 : is_float 1.
Proof. split; [reflexivity | split; intros H; discriminate H]. Qed.

Lemma Qltb_ge (a b : Q) : Qltb a b = false <-> (b <= a)%Q.
Proof.
  unfold Qltb. rewrite negb_false_iff. apply Qle_bool_iff.
Qed.

(** Below [2^31] the casts of the comparison change nothing. *)
Lemma cast_small (k : Z) :
  (0 <= k < 2 ^ 31)%Z -> size_t_of_int (int_of_size_t k) = k.
Proof.
  intros Hk. unfold size_t_of_int, int_of_size_t.
  rewrite (Z.mod_small k (2 ^ 32)) by lia.
  destruct (Z.ltb_spec k (2 ^ 31)); [|lia].
  apply Z.mod_small. lia.
Qed.

Lemma own_index_small (indices : list Z) (k : nat) :
  (Z.of_nat k < 2 ^ 31)%Z ->
  own_index indices k = true <-> indices !! k = Some (Z.of_nat k).
Proof.
  intros Hk. unfold own_index. rewrite cast_small by lia.
  destruct (indices !! k) as [r|]; [|split; discriminate].
  rewrite Z.eqb_eq. split; [intros ->; reflexivity | intros [= ->]; reflexivity].
Qed.

Lemma own_index_insert_ne (indices : list Z) (j k : nat) (r : Z) :
  j <> k -> own_index (<[j := r]> indices) k = own_index indices k.
Proof.
  intros Hjk. unfold own_index. rewrite list_lookup_insert_ne by exact Hjk.
  reflexivity.
Qed.

Lemma fit_empty_insert_ne (fits : list (list ModelFitInfo)) (j k : nat) l :
  j <> k -> fit_empty (<[j := l]> fits) k = fit_empty fits k.
Proof.
  intros Hjk. unfold fit_empty. rewrite list_lookup_insert_ne by exact Hjk.
  reflexivity.
Qed.

Lemma fit_at_insert_ne (fits : list (list ModelFitInfo)) (j k : nat) l :
  j <> k -> fit_at (<[j := l]> fits) k = fit_at fits k.
Proof.
  intros Hjk. unfold fit_at. rewrite list_lookup_insert_ne by exact Hjk.
  reflexivity.
Qed.

Lemma fit_empty_false (fits : list (list ModelFitInfo)) (k : nat) :
  fit_empty fits k = false <->
  exists m rest, fits !! k = Some (m :: rest).
Proof.
  unfold fit_empty. destruct (fits !! k) as [[|m rest]|].
  - split; [discriminate | intros (? & ? & [=])].
  - split; [eauto | reflexivity].
  - split; [discriminate | intros (? & ? & [=])].
Qed.

Lemma fit_at_Some (fits : list (list ModelFitInfo)) (k : nat) m :
  fit_at fits k = Some m <-> exists rest, fits !! k = Some (m :: rest).
Proof.
  unfold fit_at. destruct (fits !! k) as [[|m' rest]|]; simpl.
  - split; [discriminate | intros (? & [=])].
  - split; [intros [= ->]; eauto | intros (? & [= -> _]); reflexivity].
  - split; [discriminate | intros (? & [=])].
Qed.

(** The first loop leaves every index pointing at itself. *)
Lemma fill_indices (m a : nat) (l : list Z) :
  length l = a + m ->
  foldl (fun l i => <[i := Z.of_nat i]> l) l (seq a m)
  = take a l ++ map Z.of_nat (seq a m).
Proof.
  revert a l. induction m as [|m IH]; intros a l Hl; simpl.
  - rewrite app_nil_r, take_ge by lia. reflexivity.
  - rewrite IH by (rewrite length_insert; lia).
    rewrite (take_S_r _ a (Z.of_nat a))
      by (apply list_lookup_insert_eq; lia).
    rewrite take_insert_ge by lia. rewrite <- app_assoc. reflexivity.
Qed.

Lemma init_indices_seq (n : nat) : init_indices n = map Z.of_nat (seq 0 n).
Proof.
  unfold init_indices. rewrite fill_indices by (rewrite length_replicate; lia).
  reflexivity.
Qed.

Lemma init_indices_lookup (n k : nat) :
  k < n -> init_indices n !! k = Some (Z.of_nat k).
Proof.
  intros Hk. rewrite init_indices_seq, list_lookup_fmap, lookup_seq_lt by lia.
  reflexivity.
Qed.

Lemma init_indices_length (n : nat) : length (init_indices n) = n.
Proof. rewrite init_indices_seq, length_map, length_seq. reflexivity. Qed.

(** ** Joining the futures *)

Lemma get_all_Some (futures : list FitOutcome) raw :
  get_all futures = Some raw -> futures = map FitReturned raw.
Proof.
  revert raw. induction futures as [|[fits|] rest IH]; intros raw; simpl.
  - intros [= <-]. reflexivity.
  - destruct (get_all rest) as [l|]; [|discriminate].
    intros [= <-]. simpl. f_equal. apply IH. reflexivity.
  - discriminate.
Qed.

Lemma get_all_returned (raw : list (list ModelFitInfo)) :
  get_all (map FitReturned raw) = Some raw.
Proof.
  induction raw as [|fits raw IH]; simpl; [reflexivity|].
  rewrite IH. reflexivity.
Qed.

Lemma get_all_None (futures : list FitOutcome) :
  get_all futures = None <-> FitThrew ∈ futures.
Proof.
  induction futures as [|[fits|] rest IH]; simpl.
  - split; [discriminate | intros H; inversion H].
  - destruct (get_all rest) as [l|].
    + split; [discriminate|]. intros H. apply elem_of_cons in H as [H|H];
        [discriminate | apply IH in H; discriminate].
    + split; [|reflexivity]. intros _. apply elem_of_cons. right.
      apply IH. reflexivity.
  - split; [|reflexivity]. intros _. apply elem_of_cons. left. reflexivity.
Qed.

(** ** The merge loop *)

Section Merge.
Context (sqrt : Q -> Q) {Index : Type} (Index_new : Index).
Context (fitBestModels : Cluster -> Z -> Index -> Q -> FitOutcome).
Context (this : TabletopObjectRecognizer) (confidence_cutoff : Q).

Local Abbreviation scan := (inner_scan sqrt this).
Local Abbreviation qual := (qualifies sqrt this).
Local Abbreviation iteration :=
  (merge_iteration sqrt Index_new fitBestModels this confidence_cutoff).
Local Abbreviation loop :=
  (merge_loop sqrt Index_new fitBestModels this confidence_cutoff).
Local Abbreviation next :=
  (merge_next sqrt Index_new fitBestModels this confidence_cutoff).
Local Abbreviation after :=
  (merge_after sqrt Index_new fitBestModels this confidence_cutoff).
Local Abbreviation away :=
  (merged_away sqrt Index_new fitBestModels this confidence_cutoff).
Local Abbreviation refit' := (refit Index_new fitBestModels confidence_cutoff).
Local Abbreviation partner := (merged_index sqrt this).

(** Where the inner loop stops: at the first index from [j] on that
    qualifies, or past the last one. *)
Lemma inner_scan_spec (v : Locals Index) (i r j : nat) :
  j <= scan v i j r <= j + r /\
  (forall k, j <= k < scan v i j r -> qual v i k = false) /\
  (scan v i j r < j + r -> qual v i (scan v i j r) = true).
Proof.
  revert j. induction r as [|r IH]; intros j; simpl.
  - split; [lia|]. split; [intros k Hk | intros Hlt]; lia.
  - unfold qualifies at 2.
    destruct (own_index (cluster_model_indices v) j) eqn:Hown; simpl.
    + destruct (close_fit sqrt this v i j) eqn:Hclose.
      * repeat split; try lia. intros _. unfold qualifies.
        rewrite Hown, Hclose. reflexivity.
      * destruct (IH (S j)) as (Hb & Hno & Hyes).
        repeat split; try lia.
        -- intros k Hk. destruct (decide (k = j)) as [->|Hne].
           ++ unfold qualifies. rewrite Hown, Hclose. reflexivity.
           ++ apply Hno. lia.
        -- intros Hlt. apply Hyes. lia.
    + destruct (IH (S j)) as (Hb & Hno & Hyes).
      repeat split; try lia.
      * intros k Hk. destruct (decide (k = j)) as [->|Hne].
        -- unfold qualifies. rewrite Hown. reflexivity.
        -- apply Hno. lia.
      * intros Hlt. apply Hyes. lia.
Qed.

(** The index merged by an iteration is the first one after [i] that
    qualifies. *)
Lemma merged_index_Some (i : nat) (v : Locals Index) (j : nat) :
  partner i v = Some j <->
  own_index (cluster_model_indices v) i = true /\
  fit_empty (raw_fit_results v) i = false /\
  i < j < length (clusters v) /\
  qual v i j = true /\
  (forall k, i < k < j -> qual v i k = false).
Proof.
  unfold merged_index.
  destruct (own_index (cluster_model_indices v) i) eqn:Hown; simpl;
    [|split; [discriminate | intros (? & _); discriminate]].
  destruct (fit_empty (raw_fit_results v) i) eqn:Hempty; simpl;
    [split; [discriminate | intros (_ & ? & _); discriminate]|].
  pose proof (inner_scan_spec v i (length (clusters v) - (i + 1)) (i + 1))
    as (Hb & Hno & Hyes).
  destruct (Nat.ltb_spec (scan v i (i + 1) (length (clusters v) - (i + 1)))
                         (length (clusters v))) as [Hlt|Hge].
  - split.
    + intros [= <-]. repeat split; try lia.
      * apply Hyes. lia.
      * intros k Hk. apply Hno. lia.
    + intros (_ & _ & Hj & Hq & Hfirst). f_equal.
      set (j' := scan v i (i + 1) (length (clusters v) - (i + 1))) in *.
      destruct (Nat.lt_trichotomy j' j) as [H|[H|H]]; [|exact H|].
      * rewrite Hfirst in Hyes by lia. discriminate Hyes. lia.
      * rewrite Hno in Hq by lia. discriminate.
  - split; [discriminate|].
    intros (_ & _ & Hj & Hq & _). rewrite Hno in Hq by lia. discriminate.
Qed.

(** An iteration that merges nothing for an [i] with a fit has found
    no index after [i] that qualifies. *)
Lemma merged_index_None (i : nat) (v : Locals Index) (k : nat) :
  partner i v = None ->
  own_index (cluster_model_indices v) i = true ->
  fit_empty (raw_fit_results v) i = false ->
  i < k < length (clusters v) ->
  qual v i k = false.
Proof.
  unfold merged_index. intros Hp Hown Hempty Hk.
  rewrite Hown, Hempty in Hp. simpl in Hp.
  pose proof (inner_scan_spec v i (length (clusters v) - (i + 1)) (i + 1))
    as (Hb & Hno & _).
  destruct (Nat.ltb_spec (scan v i (i + 1) (length (clusters v) - (i + 1)))
                         (length (clusters v))) as [Hlt|Hge];
    [discriminate|].
  apply Hno. lia.
Qed.

(** An iteration advances [i], or merges its partner into [i] and
    refits. *)
Lemma merge_iteration_eq (i : nat) (v : Locals Index) :
  iteration i v =
  match partner i v with
  | None => Continue (i + 1) v
  | Some j =>
      match refit' i (absorb i j v) with
      | Some v' => Continue i v'
      | None => Throw (absorb i j v)
      end
  end.
Proof.
  unfold merge_iteration, merged_index.
  destruct (negb (own_index (cluster_model_indices v) i)
            || fit_empty (raw_fit_results v) i); [reflexivity|].
  destruct (_ <? _); reflexivity.
Qed.

(** The distance of two fits depends on their poses only. *)
Lemma fitDistance_pose (m1 m1' m2 : ModelFitInfo) :
  getPose m1 = getPose m1' ->
  fitDistance sqrt m1 m2 = fitDistance sqrt m1' m2.
Proof. unfold fitDistance. intros ->. reflexivity. Qed.

(** *** One iteration *)

Lemma refit_Some (i : nat) (v v' : Locals Index) :
  refit' i v = Some v' ->
  exists fits,
    fitBestModels (clusters v !!! i) 1 (nth i (search v) Index_new)
                  confidence_cutoff = FitReturned fits /\
    v' = mkLocals (clusters v) (<[i := fits]> (raw_fit_results v))
                  (cluster_model_indices v) (search v).
Proof.
  unfold refit. change (Z.max 1 num_models) with 1%Z.
  destruct (fitBestModels _ _ _ _) as [fits|]; [|discriminate].
  intros [= <-]. exists fits. split; reflexivity.
Qed.

Lemma refit_None (i : nat) (v : Locals Index) :
  refit' i v = None <->
  fitBestModels (clusters v !!! i) 1 (nth i (search v) Index_new)
                confidence_cutoff = FitThrew.
Proof.
  unfold refit. change (Z.max 1 num_models) with 1%Z.
  destruct (fitBestModels _ _ _ _) as [fits|];
    split; (discriminate || reflexivity).
Qed.

Lemma merge_next_running (s : LoopState Index) :
  loop_raised s = false ->
  loop_i s < length (clusters (loop_v s)) ->
  next_case sqrt Index_new fitBestModels this confidence_cutoff s.
Proof.
  intros Hr Hi.
  assert (Hn : next s = match iteration (loop_i s) (loop_v s) with
                        | Continue i' v' => mkLoopState i' v' false
                        | Throw v' => mkLoopState (loop_i s) v' true
                        end).
  { unfold merge_next. rewrite Hr.
    destruct (Nat.ltb_spec (loop_i s) (length (clusters (loop_v s))));
      [reflexivity | lia]. }
  rewrite merge_iteration_eq in Hn.
  destruct (partner (loop_i s) (loop_v s)) as [j|] eqn:Hp.
  - destruct (refit' _ _) as [v'|] eqn:Hf.
    + eapply next_merge; eauto.
    + eapply next_throw; eauto.
  - apply next_advance; [exact Hp | exact Hn].
Qed.

Lemma merge_next_final (s : LoopState Index) :
  loop_raised s = true \/ length (clusters (loop_v s)) <= loop_i s ->
  next s = s.
Proof.
  intros H. unfold merge_next. destruct (loop_raised s); [reflexivity|].
  destruct H as [H|H]; [discriminate|].
  destruct (Nat.ltb_spec (loop_i s) (length (clusters (loop_v s))));
    [lia | reflexivity].
Qed.

Lemma merge_after_S (t : nat) (s : LoopState Index) :
  after (S t) s = after t (next s).
Proof. unfold merge_after. apply Nat.iter_succ_r. Qed.

Lemma merge_after_add (t d : nat) (s : LoopState Index) :
  after (t + d) s = after d (after t s).
Proof.
  unfold merge_after. rewrite Nat.add_comm. apply Nat.iter_add.
Qed.

(** A property kept by every iteration holds after any number of
    them. *)
Lemma merge_after_ind (P : LoopState Index -> Prop) :
  (forall s, P s -> P (next s)) ->
  forall t s, P s -> P (after t s).
Proof.
  intros Hstep t. induction t as [|t IH]; intros s Hs; [exact Hs|].
  rewrite merge_after_S. apply IH, Hstep, Hs.
Qed.

(** The fuelled loop ends in a state that the machine reaches. *)
Lemma merge_loop_after (fuel i : nat) (v : Locals Index) :
  match loop fuel i v with
  | LoopDone v' =>
      exists t i', after t (mkLoopState i v false) = mkLoopState i' v' false
                   /\ length (clusters v') <= i'
  | LoopThrew v' =>
      exists t i', after t (mkLoopState i v false) = mkLoopState i' v' true
  | LoopOutOfFuel => True
  end.
Proof.
  revert i v. induction fuel as [|fuel IH]; intros i v; simpl; [exact I|].
  destruct (Nat.ltb_spec i (length (clusters v))) as [Hlt|Hge].
  - destruct (iteration i v) as [i' v'|v'] eqn:Hit.
    + specialize (IH i' v').
      assert (Hn : next (mkLoopState i v false) = mkLoopState i' v' false).
      { unfold merge_next. simpl.
        destruct (Nat.ltb_spec i (length (clusters v))); [|lia].
        rewrite Hit. reflexivity. }
      destruct (loop fuel i' v') as [w|w|]; [| |exact I].
      * destruct IH as (t & i'' & Ht & Hi). exists (S t), i''.
        rewrite merge_after_S, Hn. split; assumption.
      * destruct IH as (t & i'' & Ht). exists (S t), i''.
        rewrite merge_after_S, Hn. assumption.
    + exists 1, i. unfold merge_after. simpl. unfold merge_next. simpl.
      destruct (Nat.ltb_spec i (length (clusters v))); [|lia].
      rewrite Hit. reflexivity.
  - exists 0, i. split; [reflexivity | exact Hge].
Qed.

(** *** Invariant and termination

    From here on there are at most [2^31] clusters, so that the casts
    in [own_index] change nothing. *)

Lemma own_index_absorbed (indices : list Z) (i j : nat) :
  (Z.of_nat j < 2 ^ 31)%Z -> i < j ->
  own_index (<[j := Z.of_nat i]> indices) j = false.
Proof.
  intros Hj Hij. unfold own_index. rewrite cast_small by lia.
  destruct (decide (j < length indices)) as [Hlt|Hge].
  - rewrite list_lookup_insert_eq by exact Hlt. apply Z.eqb_neq. lia.
  - rewrite list_insert_ge, lookup_ge_None_2 by lia. reflexivity.
Qed.

Lemma count_own_le (indices : list Z) (k : nat) : count_own indices k <= k.
Proof.
  induction k as [|k IH]; simpl; [lia|].
  destruct (own_index indices k); lia.
Qed.

Lemma count_own_insert_ge (indices : list Z) (j k : nat) (r : Z) :
  k <= j -> count_own (<[j := r]> indices) k = count_own indices k.
Proof.
  intros Hkj. induction k as [|k IH]; simpl; [reflexivity|].
  rewrite own_index_insert_ne by lia. rewrite IH by lia. reflexivity.
Qed.

Lemma count_own_insert_lt (indices : list Z) (j k : nat) (r : Z) :
  j < k ->
  own_index indices j = true ->
  own_index (<[j := r]> indices) j = false ->
  S (count_own (<[j := r]> indices) k) = count_own indices k.
Proof.
  intros Hjk Hown Hown'. induction k as [|k IH]; [lia|]. simpl.
  destruct (decide (k = j)) as [->|Hne].
  - rewrite Hown, Hown', count_own_insert_ge by lia. reflexivity.
  - rewrite own_index_insert_ne by lia. rewrite <- IH by lia. lia.
Qed.

Lemma sized_absorb (n i j : nat) (v : Locals Index) :
  sized n v -> sized n (absorb i j v).
Proof.
  intros (Hc & Hf & Hi & Hs). unfold sized, absorb. simpl.
  rewrite !length_insert. repeat split; assumption.
Qed.

Lemma sized_refit (n i : nat) (v v' : Locals Index) :
  refit' i v = Some v' -> sized n v -> sized n v'.
Proof.
  intros (fits & _ & ->)%refit_Some (Hc & Hf & Hi & Hs).
  unfold sized. simpl. rewrite length_insert. repeat split; assumption.
Qed.

Lemma refit_indices (i : nat) (v v' : Locals Index) :
  refit' i v = Some v' ->
  cluster_model_indices v' = cluster_model_indices v.
Proof. intros (fits & _ & ->)%refit_Some. reflexivity. Qed.

Lemma one_hop_absorb (n i j : nat) (indices : list Z) :
  (Z.of_nat n <= 2 ^ 31)%Z -> i < j < n ->
  own_index indices i = true ->
  one_hop i indices -> one_hop i (<[j := Z.of_nat i]> indices).
Proof.
  intros Hn Hij Hown Hhop k r Hk.
  apply own_index_small in Hown; [|lia].
  destruct (decide (j = k)) as [<-|Hne].
  - apply list_lookup_insert_Some in Hk as [(_ & <- & _)|(? & _)]; [|lia].
    right. exists i. rewrite list_lookup_insert_ne by lia.
    repeat split; (lia || exact Hown).
  - rewrite list_lookup_insert_ne in Hk by exact Hne.
    destruct (Hhop k r Hk) as [->|(m & -> & Hm & Hmk & Hmm)];
      [left; reflexivity|].
    right. exists m. rewrite list_lookup_insert_ne by lia.
    repeat split; (lia || exact Hmm).
Qed.

Lemma one_hop_advance (i : nat) (indices : list Z) :
  one_hop i indices -> one_hop (i + 1) indices.
Proof.
  intros Hhop k r Hk.
  destruct (Hhop k r Hk) as [->|(m & -> & Hm & Hmk & Hmm)];
    [left; reflexivity|].
  right. exists m. repeat split; (lia || exact Hmm).
Qed.

(** Every iteration keeps the invariant. *)
Lemma merge_inv_next (n : nat) (s : LoopState Index) :
  (Z.of_nat n <= 2 ^ 31)%Z -> merge_inv n s -> merge_inv n (next s).
Proof.
  intros Hn (Hsz & Hhop).
  destruct (loop_raised s) eqn:Hr;
    [rewrite merge_next_final by (left; exact Hr); split; assumption|].
  destruct (decide (loop_i s < length (clusters (loop_v s)))) as [Hi|Hi];
    [|rewrite merge_next_final by (right; lia); split; assumption].
  destruct (merge_next_running s Hr Hi)
    as [Hp ->|j v' Hp Hf ->|j Hp Hf ->]; unfold merge_inv; simpl.
  - split; [exact Hsz | apply one_hop_advance, Hhop].
  - apply merged_index_Some in Hp as (Hown & _ & Hj & _).
    split; [eapply sized_refit, sized_absorb; eassumption|].
    rewrite (refit_indices _ _ _ Hf). simpl.
    destruct Hsz as (Hc & _). apply (one_hop_absorb n); (lia || assumption).
  - apply merged_index_Some in Hp as (Hown & _ & Hj & _).
    split; [apply sized_absorb, Hsz|].
    destruct Hsz as (Hc & _). apply (one_hop_absorb n); (lia || assumption).
Qed.

Lemma merge_inv_after (n t : nat) (s : LoopState Index) :
  (Z.of_nat n <= 2 ^ 31)%Z -> merge_inv n s -> merge_inv n (after t s).
Proof.
  intros Hn. apply (merge_after_ind (merge_inv n)).
  intros s'. apply merge_inv_next, Hn.
Qed.

(** The fuel is enough: every iteration advances [i] or takes one index
    out of those that point at themselves. *)
Lemma merge_loop_measure (n fuel i : nat) (v : Locals Index) :
  (Z.of_nat n <= 2 ^ 31)%Z -> sized n v ->
  (n - i) + count_own (cluster_model_indices v) n < fuel ->
  loop fuel i v <> LoopOutOfFuel.
Proof.
  intros Hn. revert i v.
  induction fuel as [|fuel IH]; intros i v Hsz Hm; [lia|]. simpl.
  pose proof Hsz as (Hc & _).
  destruct (Nat.ltb_spec i (length (clusters v))) as [Hlt|Hge];
    [|discriminate].
  rewrite merge_iteration_eq.
  destruct (partner i v) as [j|] eqn:Hp.
  - destruct (refit' i (absorb i j v)) as [v'|] eqn:Hf; [|discriminate].
    apply merged_index_Some in Hp as (_ & _ & Hj & Hq & _).
    apply IH; [eapply sized_refit, sized_absorb; eassumption|].
    rewrite (refit_indices _ _ _ Hf). simpl.
    apply andb_true_iff in Hq as (Hown & _).
    pose proof (count_own_insert_lt (cluster_model_indices v) j n
                  (Z.of_nat i)) as Hcount.
    rewrite <- Hcount in Hm;
      [lia | lia | exact Hown | apply own_index_absorbed; lia].
  - apply IH; [exact Hsz | lia].
Qed.

Lemma merge_loop_fuel (n : nat) (v : Locals Index) :
  (Z.of_nat n <= 2 ^ 31)%Z -> sized n v ->
  loop (merge_fuel n) 0 v <> LoopOutOfFuel.
Proof.
  intros Hn Hsz. apply (merge_loop_measure n); [exact Hn | exact Hsz|].
  pose proof (count_own_le (cluster_model_indices v) n).
  unfold merge_fuel. lia.
Qed.

(** *** What the iterations do to the indices *)

Lemma merge_event_Some (s : LoopState Index) (j : nat) :
  merge_event sqrt this s = Some j <->
  loop_raised s = false /\
  loop_i s < length (clusters (loop_v s)) /\
  partner (loop_i s) (loop_v s) = Some j.
Proof.
  unfold merge_event. destruct (loop_raised s).
  - split; [discriminate | intros (? & _); discriminate].
  - destruct (Nat.ltb_spec (loop_i s) (length (clusters (loop_v s)))).
    + split; [intros He; repeat split; assumption | intros (_ & _ & He); exact He].
    + split; [discriminate | intros (_ & ? & _); lia].
Qed.

Lemma merge_event_None (s : LoopState Index) :
  merge_event sqrt this s = None ->
  loop_raised s = false ->
  loop_i s < length (clusters (loop_v s)) ->
  partner (loop_i s) (loop_v s) = None.
Proof.
  unfold merge_event. intros He Hr Hi. rewrite Hr in He.
  destruct (Nat.ltb_spec (loop_i s) (length (clusters (loop_v s))));
    [exact He | lia].
Qed.

(** An iteration changes the indices at the merged index only. *)
Lemma next_indices (s : LoopState Index) :
  cluster_model_indices (loop_v (next s)) =
  match merge_event sqrt this s with
  | Some j => <[j := Z.of_nat (loop_i s)]> (cluster_model_indices (loop_v s))
  | None => cluster_model_indices (loop_v s)
  end.
Proof.
  destruct (loop_raised s) eqn:Hr.
  { rewrite merge_next_final by (left; exact Hr).
    unfold merge_event. rewrite Hr. reflexivity. }
  destruct (decide (loop_i s < length (clusters (loop_v s)))) as [Hi|Hi].
  - destruct (merge_next_running s Hr Hi)
      as [Hp ->|j v' Hp Hf ->|j Hp Hf ->]; simpl.
    + destruct (merge_event sqrt this s) as [j|] eqn:He; [|reflexivity].
      apply merge_event_Some in He as (_ & _ & He). congruence.
    + rewrite (proj2 (merge_event_Some s j)) by auto.
      rewrite (refit_indices _ _ _ Hf). reflexivity.
    + rewrite (proj2 (merge_event_Some s j)) by auto. reflexivity.
  - rewrite merge_next_final by (right; lia).
    destruct (merge_event sqrt this s) as [j|] eqn:He; [|reflexivity].
    apply merge_event_Some in He as (_ & ? & _). lia.
Qed.

(** The index an iteration merges away, and the index it merges it
    into, both point at themselves. *)
Lemma merge_event_own (n : nat) (s : LoopState Index) (j : nat) :
  (Z.of_nat n <= 2 ^ 31)%Z -> sized n (loop_v s) ->
  merge_event sqrt this s = Some j ->
  loop_i s < j < n /\
  cluster_model_indices (loop_v s) !! loop_i s = Some (Z.of_nat (loop_i s)) /\
  cluster_model_indices (loop_v s) !! j = Some (Z.of_nat j).
Proof.
  intros Hn (Hc & _) (_ & _ & Hp)%merge_event_Some.
  apply merged_index_Some in Hp as (Hi & _ & Hj & Hq & _).
  apply andb_true_iff in Hq as (Hown & _).
  apply own_index_small in Hi; [|lia].
  apply own_index_small in Hown; [|lia].
  repeat split; (lia || assumption).
Qed.

(** An index points at itself after an iteration exactly when it did
    before and the iteration did not merge it away. *)
Lemma next_own (n : nat) (s : LoopState Index) (k : nat) :
  (Z.of_nat n <= 2 ^ 31)%Z -> sized n (loop_v s) ->
  cluster_model_indices (loop_v (next s)) !! k = Some (Z.of_nat k) <->
  cluster_model_indices (loop_v s) !! k = Some (Z.of_nat k) /\
  merge_event sqrt this s <> Some k.
Proof.
  intros Hn Hsz. rewrite next_indices.
  destruct (merge_event sqrt this s) as [j|] eqn:He;
    [|split; [intros H; split; [exact H | discriminate] | intros (H & _); exact H]].
  pose proof (merge_event_own n s j Hn Hsz He) as (Hij & _ & Hj).
  destruct (decide (j = k)) as [->|Hne].
  - rewrite list_lookup_insert_eq by (apply lookup_lt_Some in Hj; exact Hj).
    split; [intros [= H]; lia | intros (_ & H); contradiction].
  - rewrite list_lookup_insert_ne by exact Hne.
    split; [intros H; split; [exact H | congruence] | intros (H & _); exact H].
Qed.

(** An index that points at another index keeps doing so. *)
Lemma next_absorbed (n : nat) (s : LoopState Index) (k : nat) (r : Z) :
  (Z.of_nat n <= 2 ^ 31)%Z -> sized n (loop_v s) ->
  cluster_model_indices (loop_v s) !! k = Some r -> r <> Z.of_nat k ->
  cluster_model_indices (loop_v (next s)) !! k = Some r.
Proof.
  intros Hn Hsz Hk Hr. rewrite next_indices.
  destruct (merge_event sqrt this s) as [j|] eqn:He; [|exact Hk].
  pose proof (merge_event_own n s j Hn Hsz He) as (_ & _ & Hj).
  rewrite list_lookup_insert_ne; [exact Hk|]. intros ->. congruence.
Qed.

Lemma merge_after_own (n : nat) (s : LoopState Index) (k t : nat) :
  (Z.of_nat n <= 2 ^ 31)%Z -> merge_inv n s ->
  cluster_model_indices (loop_v (after t s)) !! k = Some (Z.of_nat k) <->
  cluster_model_indices (loop_v s) !! k = Some (Z.of_nat k) /\
  k ∉ away t s.
Proof.
  intros Hn. revert s. induction t as [|t IH]; intros s Hinv.
  - simpl. split; [intros H; split; [exact H | apply not_elem_of_nil]|].
    intros (H & _). exact H.
  - rewrite merge_after_S, IH by (apply merge_inv_next; assumption).
    rewrite (next_own n) by (exact Hn || apply Hinv). simpl.
    destruct (merge_event sqrt this s) as [j|].
    + rewrite not_elem_of_cons. split.
      * intros ((H1 & H2) & H3). repeat split; [exact H1 | congruence | exact H3].
      * intros (H1 & H2 & H3). repeat split; [exact H1 | congruence | exact H3].
    + split; [intros ((H1 & _) & H3); split; assumption|].
      intros (H1 & H3). repeat split; [exact H1 | discriminate | exact H3].
Qed.

Lemma merge_after_absorbed (n : nat) (s : LoopState Index)
    (k : nat) (r : Z) (d : nat) :
  (Z.of_nat n <= 2 ^ 31)%Z -> merge_inv n s ->
  cluster_model_indices (loop_v s) !! k = Some r -> r <> Z.of_nat k ->
  cluster_model_indices (loop_v (after d s)) !! k = Some r.
Proof.
  intros Hn Hinv Hk Hr. induction d as [|d IH]; [exact Hk|].
  change (after (S d) s) with (next (after d s)).
  apply (next_absorbed n); [exact Hn | | exact IH | exact Hr].
  apply (merge_inv_after n d s Hn Hinv).
Qed.

(** *** The iteration that merges *)

Lemma merge_next_event (s : LoopState Index) (j : nat) :
  merge_event sqrt this s = Some j ->
  next s =
  match refit' (loop_i s) (absorb (loop_i s) j (loop_v s)) with
  | Some v' => mkLoopState (loop_i s) v' false
  | None => mkLoopState (loop_i s) (absorb (loop_i s) j (loop_v s)) true
  end.
Proof.
  intros (Hr & Hi & Hp)%merge_event_Some.
  destruct (merge_next_running s Hr Hi)
    as [Hp' ->|j' v' Hp' Hf ->|j' Hp' Hf ->]; [congruence| |];
    rewrite Hp in Hp'; injection Hp' as <-; rewrite Hf; reflexivity.
Qed.

(** The search indices are never rebuilt. *)
Lemma next_search (s : LoopState Index) :
  search (loop_v (next s)) = search (loop_v s).
Proof.
  destruct (merge_event sqrt this s) as [j|] eqn:He.
  - rewrite (merge_next_event s j He).
    destruct (refit' _ _) as [v'|] eqn:Hf; [|reflexivity].
    apply refit_Some in Hf as (fits & _ & ->). reflexivity.
  - destruct (loop_raised s) eqn:Hr;
      [rewrite merge_next_final by (left; exact Hr); reflexivity|].
    destruct (decide (loop_i s < length (clusters (loop_v s)))) as [Hi|Hi];
      [|rewrite merge_next_final by (right; lia); reflexivity].
    pose proof (merge_event_None s He Hr Hi) as Hp.
    destruct (merge_next_running s Hr Hi)
      as [_ ->|j' v' Hp' _ _|j' Hp' _ _]; [reflexivity| |]; congruence.
Qed.

Lemma merge_after_search (t : nat) (s : LoopState Index) :
  search (loop_v (after t s)) = search (loop_v s).
Proof.
  induction t as [|t IH]; [reflexivity|].
  change (after (S t) s) with (next (after t s)).
  rewrite next_search. exact IH.
Qed.

End Merge.

(** ** The phases of [objectDetection] *)

Section Detection.
Context (sqrt : Q -> Q) {Index : Type} (Index_new : Index).
Context (build : Cluster -> Index).
Context (this : TabletopObjectRecognizer) (confidence_cutoff : Q).

Section AnyFitter.
Context (fitBestModels : Cluster -> Z -> Index -> Q -> FitOutcome).

(** What the first two loops leave in the locals. *)
Lemma fitted_Some (cls : list Cluster) (v : Locals Index) :
  fitted build fitBestModels confidence_cutoff cls = Some v ->
  clusters v = cls /\
  cluster_model_indices v = init_indices (length cls) /\
  search v = map build cls /\
  map FitReturned (raw_fit_results v)
  = map (fun c => fitBestModels c 1 (build c) confidence_cutoff) cls.
Proof.
  unfold fitted, launch. change (Z.max 1 num_models) with 1%Z.
  destruct (get_all _) as [raw|] eqn:Hget; [|discriminate].
  intros [= <-]. simpl. repeat split.
  apply get_all_Some in Hget. rewrite <- Hget.
  change (map build cls) with (build <$> cls).
  rewrite zip_with_fmap_r, zip_with_diag. reflexivity.
Qed.

Lemma fitted_sized (cls : list Cluster) (v : Locals Index) :
  fitted build fitBestModels confidence_cutoff cls = Some v ->
  sized (length cls) v.
Proof.
  intros (Hc & Hi & Hs & Hf)%fitted_Some. unfold sized.
  rewrite Hc, Hi, Hs, init_indices_length, length_map.
  apply (f_equal length) in Hf. rewrite !length_map in Hf.
  repeat split; assumption.
Qed.

(** The call raises in the second loop exactly when one of the
    fitting tasks raised. *)
Lemma fitted_None (cls : list Cluster) :
  fitted build fitBestModels confidence_cutoff cls = None <->
  exists c, c ∈ cls /\
            fitBestModels c 1 (build c) confidence_cutoff = FitThrew.
Proof.
  unfold fitted, launch. change (Z.max 1 num_models) with 1%Z.
  change (map build cls) with (build <$> cls).
  rewrite zip_with_fmap_r, zip_with_diag.
  destruct (get_all _) as [raw|] eqn:Hget.
  - split; [discriminate|]. intros (c & Hc & Hthrew).
    assert (Hnone : get_all ((fun c => fitBestModels c 1 (build c)
                               confidence_cutoff) <$> cls) = None).
    { apply get_all_None, list_elem_of_fmap. exists c. split; [|exact Hc].
      symmetry. exact Hthrew. }
    rewrite Hnone in Hget. discriminate.
  - split; [|reflexivity]. intros _.
    apply get_all_None, list_elem_of_fmap in Hget as (c & Hthrew & Hc).
    exists c. split; [exact Hc | symmetry; exact Hthrew].
Qed.

(** The state of the locals at the start of the merge loop satisfies
    its invariant. *)
Lemma fitted_inv (cls : list Cluster) (v : Locals Index) :
  fitted build fitBestModels confidence_cutoff cls = Some v ->
  merge_inv (length cls) (mkLoopState 0 v false).
Proof.
  intros Hfit. split; [apply fitted_sized, Hfit|]. simpl.
  apply fitted_Some in Hfit as (_ & -> & _).
  intros k r Hk. left.
  rewrite init_indices_lookup in Hk by (apply lookup_lt_Some in Hk;
    rewrite init_indices_length in Hk; exact Hk).
  injection Hk as <-. reflexivity.
Qed.

(** The last loop appends what [assemble_one] yields, index by
    index. *)
Lemma assemble_omap (v : Locals Index) (results : list TabletopResult) :
  assemble confidence_cutoff v results
  = results ++ omap (assemble_one confidence_cutoff v)
                    (seq 0 (length (cluster_model_indices v))).
Proof.
  unfold assemble.
  generalize (seq 0 (length (cluster_model_indices v))). intros l.
  revert results. induction l as [|i l IH]; intros results; simpl.
  - rewrite app_nil_r. reflexivity.
  - rewrite IH. destruct (assemble_one confidence_cutoff v i) as [r|];
      [rewrite <- app_assoc|]; reflexivity.
Qed.

Lemma assemble_one_index (v : Locals Index) (i : nat) r :
  assemble_one confidence_cutoff v i = Some r -> cloud_index_ r = i.
Proof.
  unfold assemble_one. destruct (_ || _); [discriminate|].
  destruct (fit_at _ _); [|discriminate].
  destruct (Qltb _ _); [discriminate|]. intros [= <-]. reflexivity.
Qed.

(** The indices of the results of the last loop increase. *)
Lemma assemble_sorted (v : Locals Index) (a m : nat) :
  StronglySorted lt
    (cloud_index_ <$> omap (assemble_one confidence_cutoff v) (seq a m))
  /\ Forall (le a)
       (cloud_index_ <$> omap (assemble_one confidence_cutoff v)
                              (seq a m)).
Proof.
  revert a. induction m as [|m IH]; intros a; simpl.
  - split; constructor.
  - destruct (IH (S a)) as (Hs & Hge).
    destruct (assemble_one confidence_cutoff v a) as [r|] eqn:Hr; simpl.
    + apply assemble_one_index in Hr. rewrite Hr. split.
      * constructor; [exact Hs|].
        eapply Forall_impl; [exact Hge|]. simpl. intros. lia.
      * constructor; [lia|].
        eapply Forall_impl; [exact Hge|]. simpl. intros. lia.
    + split; [exact Hs|].
      eapply Forall_impl; [exact Hge|]. simpl. intros. lia.
Qed.

(** When the last loop pushes a result for [i]. *)
Lemma assemble_one_Some (v : Locals Index) (i : nat) r :
  (Z.of_nat i < 2 ^ 31)%Z ->
  assemble_one confidence_cutoff v i = Some r <->
  cluster_model_indices v !! i = Some (Z.of_nat i) /\
  exists m rest,
    raw_fit_results v !! i = Some (m :: rest) /\
    (confidence_cutoff <= getConfidence (getScore m))%Q /\
    r = {| pose_ := getPose m;
           confidence_ := float_of_double (getConfidence (getScore m));
           object_id_ := getModelId m;
           cloud_ := clusters v !!! i;
           cloud_index_ := i |}.
Proof.
  intros Hi. unfold assemble_one.
  rewrite <- (own_index_small _ _ Hi).
  destruct (own_index (cluster_model_indices v) i); simpl;
    [|split; [discriminate | intros (? & _); discriminate]].
  unfold fit_empty, fit_at.
  destruct (raw_fit_results v !! i) as [[|m rest]|]; simpl.
  - split; [discriminate | intros (_ & ? & ? & [=] & _)].
  - destruct (Qltb _ _) eqn:Hlt.
    + split; [discriminate|].
      intros (_ & m' & rest' & [= <- <-] & Hle & _).
      apply Qltb_lt in Hlt. apply Qlt_not_le in Hlt. contradiction.
    + apply Qltb_ge in Hlt. split.
      * intros [= <-]. split; [reflexivity|]. exists m, rest.
        repeat split. exact Hlt.
      * intros (_ & m' & rest' & [= <- <-] & _ & ->). reflexivity.
  - split; [discriminate | intros (_ & ? & ? & [=] & _)].
Qed.

(** What the last loop appends, for locals of at most [2^31]
    clusters. *)
Lemma assemble_spec (n : nat) (v : Locals Index)
    (results : list TabletopResult) :
  (Z.of_nat n <= 2 ^ 31)%Z -> sized n v ->
  exists new,
    assemble confidence_cutoff v results = results ++ new /\
    (forall i r, r ∈ new /\ cloud_index_ r = i <->
       cluster_model_indices v !! i = Some (Z.of_nat i) /\
       exists m rest,
         raw_fit_results v !! i = Some (m :: rest) /\
         (confidence_cutoff <= getConfidence (getScore m))%Q /\
         r = {| pose_ := getPose m;
                confidence_ := float_of_double (getConfidence (getScore m));
                object_id_ := getModelId m;
                cloud_ := clusters v !!! i;
                cloud_index_ := i |}) /\
    StronglySorted lt (cloud_index_ <$> new).
Proof.
  intros Hn (Hc & Hf & Hi & Hs).
  exists (omap (assemble_one confidence_cutoff v) (seq 0 n)).
  split; [rewrite assemble_omap, Hi; reflexivity|].
  split; [|apply assemble_sorted].
  intros i r. rewrite list_elem_of_omap. split.
  - intros ((i' & Hin & Hone) & Hidx).
    pose proof (assemble_one_index _ _ _ Hone) as Hi'.
    rewrite Hidx in Hi'. subst i'.
    apply elem_of_seq in Hin. apply assemble_one_Some in Hone; [|lia].
    exact Hone.
  - intros (Hown & m & rest & Hfit & Hle & Hr).
    assert (Hlt : i < n) by (apply lookup_lt_Some in Hown; lia).
    split; [|rewrite Hr; reflexivity].
    exists i. split; [apply elem_of_seq; lia|].
    apply assemble_one_Some; [lia|]. split; [exact Hown|].
    exists m, rest. repeat split; assumption.
Qed.
End AnyFitter.

Section ReturningFitter.
Context (fit : Cluster -> Z -> Index -> Q -> list ModelFitInfo).

Lemma fitted_returning (cls : list Cluster) :
  fitted build (returning fit) confidence_cutoff cls
  = Some (mkLocals cls
            (map (fun c => fit c 1 (build c) confidence_cutoff) cls)
            (init_indices (length cls)) (map build cls)).
Proof.
  unfold fitted, launch. change (Z.max 1 num_models) with 1%Z.
  change (map build cls) with (build <$> cls).
  rewrite zip_with_fmap_r, zip_with_diag. unfold returning.
  change ((fun c => FitReturned (fit c 1 (build c) confidence_cutoff))
            <$> cls)
    with (map (fun c => FitReturned (fit c 1 (build c) confidence_cutoff))
              cls).
  rewrite <- (map_map (fun c => fit c 1 (build c) confidence_cutoff)
                      FitReturned).
  rewrite get_all_returned. reflexivity.
Qed.

Lemma merge_loop_returning (fuel i : nat) (v v' : Locals Index) :
  merge_loop sqrt Index_new (returning fit) this confidence_cutoff
             fuel i v <> LoopThrew v'.
Proof.
  revert i v. induction fuel as [|fuel IH]; intros i v; simpl;
    [discriminate|].
  destruct (_ <? _); [|discriminate].
  rewrite merge_iteration_eq.
  destruct (merged_index sqrt this i v) as [j|]; [|apply IH].
  unfold refit, returning. apply IH.
Qed.

(** With a fitter that returns, the last loop is reached, in locals
    that satisfy the invariant of the merge loop. *)
Lemma merged_returning (cls : list Cluster) (perform_fit_merge : bool) :
  (Z.of_nat (length cls) <= 2 ^ 31)%Z ->
  exists v i,
    merged sqrt Index_new build (returning fit) this confidence_cutoff
           cls perform_fit_merge = Some (LoopDone v) /\
    merge_inv (length cls) (mkLoopState i v false).
Proof.
  intros Hn. unfold merged.
  destruct (fitted build (returning fit) confidence_cutoff cls)
    as [v0|] eqn:Hfit; [|rewrite fitted_returning in Hfit; discriminate].
  pose proof (fitted_inv _ _ _ Hfit) as Hinv.
  destruct perform_fit_merge; [|exists v0, 0; split; [reflexivity|exact Hinv]].
  pose proof (merge_loop_after sqrt Index_new (returning fit) this
                confidence_cutoff (merge_fuel (length cls)) 0 v0) as Hloop.
  destruct (merge_loop _ _ _ _ _ _ _ v0) as [v|v|] eqn:Hl.
  - destruct Hloop as (t & i & Ht & _). exists v, i.
    split; [reflexivity|]. rewrite <- Ht.
    apply merge_inv_after; assumption.
  - apply merge_loop_returning in Hl. contradiction.
  - apply merge_loop_fuel in Hl; [contradiction | exact Hn|].
    apply fitted_sized in Hfit. exact Hfit.
Qed.

Lemma refit_returning (i : nat) (v : Locals Index) :
  refit Index_new (returning fit) confidence_cutoff i v
  = Some (mkLocals (clusters v)
            (<[i := fit (clusters v !!! i) 1 (nth i (search v) Index_new)
                        confidence_cutoff]> (raw_fit_results v))
            (cluster_model_indices v) (search v)).
Proof. reflexivity. Qed.

(** The invariant holds when the merge loop starts. *)
Lemma separation_inv_init (cls : list Cluster) :
  separation_inv sqrt build fit this confidence_cutoff cls
    (mkLoopState 0
       (mkLocals cls (first_fits build fit confidence_cutoff cls)
                 (init_indices (length cls)) (map build cls))
       false).
Proof.
  split; [|split; [reflexivity|split; [reflexivity|split; [|split]]]].
  - apply (fitted_inv (returning fit)). apply fitted_returning.
  - intros k _ _. reflexivity.
  - intros k Hk _. simpl. unfold first_fits.
    change (map (fun c => fit c 1%Z (build c) confidence_cutoff) cls)
      with ((fun c => fit c 1%Z (build c) confidence_cutoff) <$> cls).
    rewrite list_lookup_fmap.
    rewrite (list_lookup_lookup_total_lt cls k) by exact Hk. reflexivity.
  - intros a b ma mb Ha. simpl in Ha. lia.
Qed.

(** Every iteration keeps it. *)
Lemma separation_inv_next (cls : list Cluster) (s : LoopState Index) :
  (Z.of_nat (length cls) <= 2 ^ 31)%Z ->
  separation_inv sqrt build fit this confidence_cutoff cls s ->
  separation_inv sqrt build fit this confidence_cutoff cls
    (merge_next sqrt Index_new (returning fit) this confidence_cutoff s).
Proof.
  intros Hn Hinv.
  pose proof Hinv as (Hm & Hr & Hsearch & Hfresh & Hrefit & Hsep).
  pose proof Hm as ((Hc & Hf & Hi & Hs) & _).
  destruct (decide (loop_i s < length (clusters (loop_v s)))) as [Hlt|Hge];
    [|rewrite merge_next_final by (right; lia); exact Hinv].
  split; [apply merge_inv_next; assumption|].
  destruct (merge_event sqrt this s) as [j|] eqn:He.
  - (* the iteration merges [j] into [i] *)
    pose proof (merge_event_own sqrt this (length cls) s j Hn
                  (proj1 Hm) He) as (Hij & Hown_i & Hown_j).
    rewrite (merge_next_event _ _ _ _ _ s j He), refit_returning.
    set (i := loop_i s) in *. set (v := loop_v s) in *.
    unfold fresh, refitted, separated. simpl.
    assert (Hown' : forall k,
               own_index (<[j := Z.of_nat i]> (cluster_model_indices v)) k
               = true ->
               k <> j /\ own_index (cluster_model_indices v) k = true).
    { intros k Hk. destruct (decide (k = j)) as [->|Hne].
      - rewrite own_index_absorbed in Hk by lia. discriminate.
      - rewrite own_index_insert_ne in Hk by congruence.
        split; assumption. }
    split; [reflexivity|]. split; [exact Hsearch|].
    split; [|split].
    + intros k Hk (Hkj & Hown)%Hown'.
      rewrite !list_lookup_insert_ne by lia.
      apply Hfresh; assumption.
    + intros k Hk (Hkj & Hown)%Hown'.
      destruct (decide (k = i)) as [->|Hki].
      * rewrite list_lookup_insert_eq
          by (rewrite length_insert; lia).
        rewrite Hsearch.
        rewrite nth_lookup.
        change (map build cls) with (build <$> cls).
        rewrite list_lookup_fmap.
        rewrite (list_lookup_lookup_total_lt cls i) by lia.
        reflexivity.
      * rewrite !list_lookup_insert_ne by congruence.
        rewrite list_lookup_total_insert_ne by congruence.
        apply Hrefit; assumption.
    + intros a b ma mb Ha Hab (Haj & Hown_a)%Hown' (Hbj & Hown_b)%Hown'.
      rewrite !fit_at_insert_ne by lia.
      apply Hsep; assumption.
  - (* the iteration advances [i] *)
    pose proof (merge_event_None sqrt this s He Hr Hlt) as Hp.
    destruct (merge_next_running sqrt Index_new (returning fit) this
                confidence_cutoff s Hr Hlt)
      as [_ ->|j' v' Hp' _ _|j' Hp' _ _]; [|congruence|congruence].
    unfold fresh, refitted, separated. simpl.
    split; [reflexivity|]. split; [exact Hsearch|].
    split; [|split; [exact Hrefit|]].
    + intros k Hk. apply Hfresh. lia.
    + intros a b ma mb Ha Hab Hown_a Hown_b Hfa Hfb.
      destruct (decide (a < loop_i s)) as [Ha'|Ha'];
        [exact (Hsep a b ma mb Ha' Hab Hown_a Hown_b Hfa Hfb)|].
      assert (a = loop_i s) as -> by lia.
      assert (Hb : b < length cls).
      { apply fit_at_Some in Hfb as (rest & Hfb).
        apply lookup_lt_Some in Hfb. unfold first_fits in Hfb.
        rewrite length_map in Hfb. exact Hfb. }
      pose proof Hfa as (resta & Hfa')%fit_at_Some.
      pose proof (merged_index_None sqrt this (loop_i s) (loop_v s) b Hp
                    Hown_a) as Hq.
      rewrite (proj2 (fit_empty_false _ _)) in Hq by eauto.
      specialize (Hq eq_refl ltac:(lia)).
      unfold qualifies, close_fit in Hq.
      assert (Hfb' : fit_at (raw_fit_results (loop_v s)) b = Some mb).
      { unfold fit_at. rewrite (Hfresh b Hab Hown_b). exact Hfb. }
      pose proof Hfb' as (restb & Hfb'')%fit_at_Some.
      rewrite Hown_b, Hfa, Hfb' in Hq.
      rewrite (proj2 (fit_empty_false _ _)) in Hq by eauto.
      exact Hq.
Qed.

Lemma separation_inv_after (cls : list Cluster) (t : nat) :
  (Z.of_nat (length cls) <= 2 ^ 31)%Z ->
  separation_inv sqrt build fit this confidence_cutoff cls
    (merge_after sqrt Index_new (returning fit) this confidence_cutoff t
       (mkLoopState 0
          (mkLocals cls (first_fits build fit confidence_cutoff cls)
                    (init_indices (length cls)) (map build cls))
          false)).
Proof.
  intros Hn.
  apply (merge_after_ind sqrt Index_new (returning fit) this
           confidence_cutoff
           (separation_inv sqrt build fit this confidence_cutoff cls)).
  - intros s. apply separation_inv_next, Hn.
  - apply separation_inv_init.
Qed.
End ReturningFitter.
End Detection.

(** ** The confidence transform *)

(** C4. The confidence of a raw score [s] is [1 - (1 - s)^2]; it is [0]
    at [0] and [1] at [1], it increases on [[0, 1]] (a larger score never
    has a smaller confidence), and it maps [[0, 1]] into [[0, 1]]. *)
Theorem getConfidence_transform :
  (forall s : Q, getConfidence s == 1 - (1 - s) ^ 2)%Q /\
  (getConfidence 0 == 0)%Q /\
  (getConfidence 1 == 1)%Q /\
  (forall s t : Q, 0 <= s -> s <= t -> t <= 1 ->
                   getConfidence s <= getConfidence t)%Q /\
  (forall s : Q, 0 <= s -> s <= 1 ->
                 0 <= getConfidence s /\ getConfidence s <= 1)%Q.
Proof.
  unfold getConfidence.
  split; [intros s; ring|].
  split; [reflexivity|].
  split; [reflexivity|].
  split; [intros s t H0 Hst H1; nra|].
  intros s H0 H1. split; nra.
Qed.

(** ** The properties of [objectDetection] *)

Section Claims.
Context (sqrt : Q -> Q) {Index : Type} (Index_new : Index).
Context (build : Cluster -> Index).
Context (this : TabletopObjectRecognizer) (confidence_cutoff : Q).

Section AnyFitter.
Context (fitBestModels : Cluster -> Z -> Index -> Q -> FitOutcome).

Local Abbreviation detection :=
  (objectDetection sqrt Index_new build fitBestModels this
                   confidence_cutoff).

(** C7. Without the merge, the clusters the caller passed are what
    the caller has after the call, whether the call returns or an
    exception of the fitter leaves it: no point is added to or taken
    from any cluster. *)
Theorem no_merge_clusters_unchanged
    (cls : list Cluster) (results : list TabletopResult) :
  match detection cls false results with
  | Returns cls' _ => cls' = cls
  | Throws cls' _ => cls' = cls
  | OutOfFuel => False
  end.
Proof.
  unfold objectDetection, merged.
  destruct (fitted build fitBestModels confidence_cutoff cls)
    as [v|] eqn:Hfit; [|reflexivity].
  apply fitted_Some in Hfit as (Hc & _). exact Hc.
Qed.

(** C10. The call only appends to [results]: when it returns, the
    entries that were there come first, unchanged, and the new
    detections follow; when an exception leaves it, [results] is as
    it was.  So [results] is empty after the call only if it was
    empty before. *)
Theorem results_only_appended
    (cls : list Cluster) (perform_fit_merge : bool)
    (results : list TabletopResult) :
  (Z.of_nat (length cls) <= 2 ^ 31)%Z ->
  match detection cls perform_fit_merge results with
  | Returns _ results' =>
      (exists new, results' = results ++ new) /\
      (results' = [] -> results = [])
  | Throws _ results' => results' = results
  | OutOfFuel => False
  end.
Proof.
  intros Hn. unfold objectDetection, merged.
  destruct (fitted build fitBestModels confidence_cutoff cls)
    as [v0|] eqn:Hfit; [|reflexivity].
  assert (Happ : forall v : Locals Index,
             (exists new, assemble confidence_cutoff v results
                          = results ++ new) /\
             (assemble confidence_cutoff v results = [] -> results = [])).
  { intros v. rewrite assemble_omap. split; [eauto|].
    intros H. apply app_eq_nil in H as (H & _). exact H. }
  destruct perform_fit_merge; [|apply Happ].
  destruct (merge_loop _ _ _ _ _ _ _ _) as [v|v|] eqn:Hl;
    [apply Happ | reflexivity|].
  apply merge_loop_fuel in Hl; [contradiction | exact Hn|].
  apply fitted_sized in Hfit. exact Hfit.
Qed.

(** C8. Take the states of the merge loop of a call, iteration by
    iteration.  (1) An index points at itself exactly when no
    iteration so far has merged its cluster away.  (2) Once an index
    points at another index, it points at that index in every later
    state.  (3) When an iteration merges [j] into [i], both [i] and
    [j] point at themselves, [i < j], and [j] points at [i]
    afterwards.  (4) In every state the index an index points at
    points at itself: one hop resolves every representative.  (5) The
    state in which the loop of the call ends is one of these
    states. *)
Theorem representatives_invariant
    (cls : list Cluster) (v : Locals Index) :
  (Z.of_nat (length cls) <= 2 ^ 31)%Z ->
  fitted build fitBestModels confidence_cutoff cls = Some v ->
  let state t :=
    merge_after sqrt Index_new fitBestModels this confidence_cutoff t
                (mkLoopState 0 v false) in
  let indices t := cluster_model_indices (loop_v (state t)) in
  (forall t k, k < length cls ->
     indices t !! k = Some (Z.of_nat k) <->
     k ∉ merged_away sqrt Index_new fitBestModels this confidence_cutoff
           t (mkLoopState 0 v false)) /\
  (forall t d k r,
     indices t !! k = Some r -> r <> Z.of_nat k ->
     indices (t + d) !! k = Some r) /\
  (forall t j,
     merge_event sqrt this (state t) = Some j ->
     loop_i (state t) < j /\
     indices t !! loop_i (state t) = Some (Z.of_nat (loop_i (state t))) /\
     indices t !! j = Some (Z.of_nat j) /\
     indices (S t) !! j = Some (Z.of_nat (loop_i (state t)))) /\
  (forall t k r,
     indices t !! k = Some r -> indices t !! Z.to_nat r = Some r) /\
  (forall v',
     merged sqrt Index_new build fitBestModels this confidence_cutoff
            cls true = Some (LoopDone v') \/
     merged sqrt Index_new build fitBestModels this confidence_cutoff
            cls true = Some (LoopThrew v') ->
     exists t, loop_v (state t) = v').
Proof.
  intros Hn Hfit state indices.
  pose proof (fitted_inv build confidence_cutoff fitBestModels cls v Hfit)
    as Hinv.
  assert (Hinvt : forall t, merge_inv (length cls) (state t)).
  { intros t. apply merge_inv_after; assumption. }
  split; [|split; [|split; [|split]]].
  - intros t k Hk. unfold indices, state.
    rewrite (merge_after_own sqrt Index_new fitBestModels this
               confidence_cutoff (length cls)) by assumption.
    simpl. apply fitted_Some in Hfit as (_ & -> & _).
    rewrite init_indices_lookup by exact Hk.
    split; [intros (_ & H); exact H | intros H; split; [reflexivity | exact H]].
  - intros t d k r Hk Hr. unfold indices, state.
    rewrite merge_after_add.
    apply (merge_after_absorbed sqrt Index_new fitBestModels this
             confidence_cutoff (length cls)); try assumption.
    apply Hinvt.
  - intros t j He.
    pose proof (merge_event_own sqrt this (length cls) (state t) j Hn
                  (proj1 (Hinvt t)) He) as (Hij & Hi & Hj).
    split; [lia|]. split; [exact Hi|]. split; [exact Hj|].
    unfold indices. change (state (S t))
      with (merge_next sqrt Index_new fitBestModels this confidence_cutoff
                       (state t)).
    rewrite next_indices, He. apply list_lookup_insert_eq.
    apply lookup_lt_Some in Hj. exact Hj.
  - intros t k r Hk. destruct (Hinvt t) as (_ & Hhop).
    destruct (Hhop k r Hk) as [->|(m & -> & _ & _ & Hm)];
      rewrite Nat2Z.id; assumption.
  - intros v' Hm. unfold merged in Hm. rewrite Hfit in Hm.
    pose proof (merge_loop_after sqrt Index_new fitBestModels this
                  confidence_cutoff (merge_fuel (length cls)) 0 v)
      as Hloop.
    destruct Hm as [[= Hm]|[= Hm]]; rewrite Hm in Hloop.
    + destruct Hloop as (t & i' & Ht & _). exists t. unfold state.
      rewrite Ht. reflexivity.
    + destruct Hloop as (t & i' & Ht). exists t. unfold state.
      rewrite Ht. reflexivity.
Qed.

(** C2, as the code has it.  In a state of the merge loop of a call
    whose next iteration merges [j] into [i]: [j] is the first index
    after [i] that qualifies; the iteration appends the points of
    cluster [j] to cluster [i], clears the fit result of [j], makes
    [j] point at [i], and calls the fitter on the enlarged cluster
    with the search index that was built from the input cluster [i];
    [i] stays; and the next iteration scans again from [i + 1]: what
    it merges is the first index after [i] that qualifies in the new
    locals. *)
Theorem merge_into_first_partner
    (cls : list Cluster) (v0 : Locals Index) (t j : nat) :
  fitted build fitBestModels confidence_cutoff cls = Some v0 ->
  let s := merge_after sqrt Index_new fitBestModels this
                       confidence_cutoff t (mkLoopState 0 v0 false) in
  let i := loop_i s in
  let v := loop_v s in
  let s' := merge_next sqrt Index_new fitBestModels this
                       confidence_cutoff s in
  merge_event sqrt this s = Some j ->
  (i < j /\ qualifies sqrt this v i j = true /\
   forall k, i < k < j -> qualifies sqrt this v i k = false) /\
  s' =
  (let enlarged := (clusters v !!! i) ++ (clusters v !!! j) in
   let clusters' := <[i := enlarged]> (clusters v) in
   let fits' := <[j := []]> (raw_fit_results v) in
   let indices' := <[j := Z.of_nat i]> (cluster_model_indices v) in
   match fitBestModels enlarged 1 (build (cls !!! i))
                       confidence_cutoff with
   | FitReturned fits =>
       mkLoopState i (mkLocals clusters' (<[i := fits]> fits') indices'
                               (map build cls)) false
   | FitThrew =>
       mkLoopState i (mkLocals clusters' fits' indices' (map build cls))
                   true
   end) /\
  (forall k, merge_event sqrt this s' = Some k ->
     i < k /\ qualifies sqrt this (loop_v s') i k = true /\
     forall k', i < k' < k -> qualifies sqrt this (loop_v s') i k' = false).
Proof.
  intros Hfit s i v s' He.
  pose proof (fitted_sized build confidence_cutoff fitBestModels cls v0
                Hfit) as Hsz0.
  pose proof He as (Hr & Hi & Hp)%merge_event_Some.
  pose proof Hp as (_ & _ & Hij & Hq & Hfirst)%merged_index_Some.
  fold i v in Hi, Hp, Hij, Hq, Hfirst.
  assert (Hsearch : search v = map build cls).
  { unfold v, s. rewrite merge_after_search. simpl.
    apply fitted_Some in Hfit as (_ & _ & Hs & _). exact Hs. }
  assert (Hlen : length (clusters v) = length cls).
  { apply (f_equal length) in Hsearch. rewrite length_map in Hsearch.
    rewrite <- Hsearch. clear -Hsz0.
    unfold v, s.
    apply (merge_after_ind sqrt Index_new fitBestModels this
             confidence_cutoff
             (fun s => length (clusters (loop_v s))
                       = length (search (loop_v s)))).
    - intros s0 Hs0. rewrite next_search, <- Hs0.
      destruct (merge_event sqrt this s0) as [j0|] eqn:He0.
      + rewrite (merge_next_event _ _ _ _ _ s0 j0 He0).
        destruct (refit _ _ _ _ _) as [v'|] eqn:Hf; simpl;
          [apply refit_Some in Hf as (fits & _ & ->); simpl|];
          apply length_insert.
      + destruct (loop_raised s0) eqn:Hr0;
          [rewrite merge_next_final by (left; exact Hr0); reflexivity|].
        destruct (decide (loop_i s0 < length (clusters (loop_v s0))))
          as [Hi0|Hi0];
          [|rewrite merge_next_final by (right; lia); reflexivity].
        pose proof (merge_event_None _ _ s0 He0 Hr0 Hi0) as Hp0.
        destruct (merge_next_running sqrt Index_new fitBestModels this
                    confidence_cutoff s0 Hr0 Hi0)
          as [_ ->|j' v' Hp' _ _|j' Hp' _ _]; [reflexivity| |]; congruence.
    - simpl. destruct Hsz0 as (-> & _ & _ & ->). reflexivity. }
  split; [repeat split; (lia || assumption)|]. split.
  - unfold s'. rewrite (merge_next_event _ _ _ _ _ s j He).
    fold i v. unfold refit, absorb. simpl.
    change (Z.max 1 num_models) with 1%Z.
    rewrite list_lookup_total_insert_eq by lia.
    rewrite Hsearch.
    assert (Hnth : nth i (map build cls) Index_new = build (cls !!! i)).
    { rewrite nth_lookup.
      change (map build cls) with (build <$> cls).
      rewrite list_lookup_fmap.
      rewrite (list_lookup_lookup_total_lt cls i) by lia. reflexivity. }
    rewrite Hnth.
    destruct (fitBestModels _ _ _ _); reflexivity.
  - intros k (_ & _ & Hk)%merge_event_Some.
    assert (Hi' : loop_i s' = i).
    { unfold s'. rewrite (merge_next_event _ _ _ _ _ s j He).
      destruct (refit _ _ _ _ _); reflexivity. }
    rewrite Hi' in Hk.
    apply merged_index_Some in Hk as (_ & _ & Hik & Hqk & Hfk).
    repeat split; (lia || assumption).
Qed.

(** C9, first half.  Every call of the fitter asks for
    [std::max(1, num_models) = 1] candidate: [objectDetection] does
    the same with a fitter that ignores the count it is given and
    takes [1], and it has no argument that sets the count.  Second
    half: with a fitter that returns at most as many fits as it is
    asked for, every fit result list has at most one element, before
    the merge and after any number of its iterations. *)
Theorem one_candidate_per_cluster
    (cls : list Cluster) (perform_fit_merge : bool)
    (results : list TabletopResult) :
  detection cls perform_fit_merge results
  = objectDetection sqrt Index_new build
      (fun c _ s cutoff => fitBestModels c 1 s cutoff)
      this confidence_cutoff cls perform_fit_merge results /\
  ((forall c k s cutoff fits,
       fitBestModels c k s cutoff = FitReturned fits ->
       (Z.of_nat (length fits) <= Z.max 0 k)%Z) ->
   forall v t,
     fitted build fitBestModels confidence_cutoff cls = Some v ->
     Forall (fun fits => length fits <= 1)
       (raw_fit_results
          (loop_v (merge_after sqrt Index_new fitBestModels this
                     confidence_cutoff t (mkLoopState 0 v false))))).
Proof.
  split; [reflexivity|].
  intros Hmax v t Hfit.
  apply (merge_after_ind sqrt Index_new fitBestModels this
           confidence_cutoff
           (fun s => Forall (fun fits => length fits <= 1)
                       (raw_fit_results (loop_v s)))).
  - intros s Hs.
    destruct (loop_raised s) eqn:Hr;
      [rewrite merge_next_final by (left; exact Hr); exact Hs|].
    destruct (decide (loop_i s < length (clusters (loop_v s))))
      as [Hi|Hi];
      [|rewrite merge_next_final by (right; lia); exact Hs].
    destruct (merge_next_running sqrt Index_new fitBestModels this
                confidence_cutoff s Hr Hi)
      as [Hp ->|j v' Hp Hf ->|j Hp Hf ->]; simpl.
    + exact Hs.
    + apply refit_Some in Hf as (fits & Hfits & ->). simpl.
      apply Forall_insert; [apply Forall_insert; [exact Hs|simpl; lia]|].
      apply Hmax in Hfits. lia.
    + apply Forall_insert; [exact Hs | simpl; lia].
  - simpl. apply fitted_Some in Hfit as (_ & _ & _ & Hraw).
    apply Forall_forall. intros fits Hin.
    apply (list_elem_of_fmap_2 FitReturned) in Hin.
    change (FitReturned <$> raw_fit_results v)
      with (map FitReturned (raw_fit_results v)) in Hin.
    rewrite Hraw in Hin.
    apply list_elem_of_fmap in Hin as (c & Hc & _).
    symmetry in Hc. apply Hmax in Hc. lia.
Qed.

(** C6. The distance of two fits is the square root of
    [dx * dx + dy * dy] for the differences of their positions in [x]
    and [y]: neither [z], nor the orientation, nor the model or the
    score changes it.  Index [j] leaves the inner loop for [i]
    exactly when [cluster_model_indices[j]] is [j], its fit result is
    not empty and the distance of its first fit to the first fit of
    [i] is strictly below [fit_merge_threshold_]; the index an
    iteration merges is the first such [j] after [i]; and the
    constructor sets the threshold to [0.02]. *)
Theorem merge_decision :
  (forall m1 m2,
      fitDistance sqrt m1 m2
      = sqrt ((x (position (getPose m1)) - x (position (getPose m2)))
              * (x (position (getPose m1)) - x (position (getPose m2)))
              + (y (position (getPose m1)) - y (position (getPose m2)))
                * (y (position (getPose m1)) - y (position (getPose m2)))
             )%Q) /\
  (forall m1 m2 m1' m2',
      x (position (getPose m1)) = x (position (getPose m1')) ->
      y (position (getPose m1)) = y (position (getPose m1')) ->
      x (position (getPose m2)) = x (position (getPose m2')) ->
      y (position (getPose m2)) = y (position (getPose m2')) ->
      fitDistance sqrt m1 m2 = fitDistance sqrt m1' m2') /\
  (forall (v : Locals Index) i j,
      (Z.of_nat j < 2 ^ 31)%Z ->
      qualifies sqrt this v i j = true <->
      cluster_model_indices v !! j = Some (Z.of_nat j) /\
      exists mi resti mj restj,
        raw_fit_results v !! i = Some (mi :: resti) /\
        raw_fit_results v !! j = Some (mj :: restj) /\
        (fitDistance sqrt mi mj < fit_merge_threshold_ this)%Q) /\
  (forall (v : Locals Index) i j,
      merged_index sqrt this i v = Some j <->
      own_index (cluster_model_indices v) i = true /\
      fit_empty (raw_fit_results v) i = false /\
      i < j < length (clusters v) /\
      qualifies sqrt this v i j = true /\
      (forall k, i < k < j -> qualifies sqrt this v i k = false)) /\
  fit_merge_threshold_ TabletopObjectRecognizer_new = 0.02%Q.
Proof.
  split; [reflexivity|].
  split; [intros m1 m2 m1' m2' Hx1 Hy1 Hx2 Hy2; unfold fitDistance;
          rewrite Hx1, Hy1, Hx2, Hy2; reflexivity|].
  split; [|split; [intros v i j; apply merged_index_Some | reflexivity]].
  intros v i j Hj. unfold qualifies, close_fit. split.
  - intros (Hown & (Hne & Hlt)%andb_true_iff)%andb_true_iff.
    apply own_index_small in Hown; [|exact Hj].
    destruct (fit_at (raw_fit_results v) i) as [mi|] eqn:Hi;
      [|discriminate].
    destruct (fit_at (raw_fit_results v) j) as [mj|] eqn:Hj';
      [|discriminate].
    apply fit_at_Some in Hi as (resti & Hi).
    apply fit_at_Some in Hj' as (restj & Hj').
    apply Qltb_lt in Hlt. split; [exact Hown|].
    exists mi, resti, mj, restj. repeat split; assumption.
  - intros (Hown & mi & resti & mj & restj & Hi & Hj' & Hlt).
    apply own_index_small in Hown; [|exact Hj]. rewrite Hown.
    rewrite (proj2 (fit_empty_false _ j)) by eauto.
    rewrite (proj2 (fit_at_Some _ i mi)) by eauto.
    rewrite (proj2 (fit_at_Some _ j mj)) by eauto.
    simpl. apply Qltb_lt. exact Hlt.
Qed.
End AnyFitter.

Section ReturningFitter.
Context (fit : Cluster -> Z -> Index -> Q -> list ModelFitInfo).

Local Abbreviation detection :=
  (objectDetection sqrt Index_new build (returning fit) this
                   confidence_cutoff).

(** C1. Let [v] be the locals when the last loop is entered.  The
    call appends a result [r] with [cloud_index_ r = i] if and only if
    [cluster_model_indices[i]] is [i], the fit result of [i] is not
    empty, and the confidence [1 - (1 - score) * (1 - score)] of its
    first fit is at least the cutoff; [r] then carries the model and the
    pose of that fit, this confidence as the [float] member
    [confidence_] holds it, the points of cluster [i] as the merge left
    them, and [i].  The indices of the appended results increase
    strictly. *)
Theorem objectDetection_emits
    (cls : list Cluster) (perform_fit_merge : bool)
    (results : list TabletopResult) :
  (Z.of_nat (length cls) <= 2 ^ 31)%Z ->
  exists v new,
    merged sqrt Index_new build (returning fit) this confidence_cutoff
           cls perform_fit_merge = Some (LoopDone v) /\
    detection cls perform_fit_merge results
    = Returns (clusters v) (results ++ new) /\
    (forall i r, r ∈ new /\ cloud_index_ r = i <->
       cluster_model_indices v !! i = Some (Z.of_nat i) /\
       exists m rest,
         raw_fit_results v !! i = Some (m :: rest) /\
         (confidence_cutoff
          <= 1 - (1 - getScore m) * (1 - getScore m))%Q /\
         r = {| pose_ := getPose m;
                confidence_ :=
                  float_of_double
                    (1 - (1 - getScore m) * (1 - getScore m))%Q;
                object_id_ := getModelId m;
                cloud_ := clusters v !!! i;
                cloud_index_ := i |}) /\
    StronglySorted lt (cloud_index_ <$> new).
Proof.
  intros Hn.
  destruct (merged_returning sqrt Index_new build this confidence_cutoff
              fit cls perform_fit_merge Hn) as (v & i & Hm & Hsz & _).
  destruct (assemble_spec confidence_cutoff (length cls) v results Hn Hsz)
    as (new & Hnew & Hiff & Hsorted).
  exists v, new. split; [exact Hm|].
  split; [|split; assumption].
  unfold objectDetection. rewrite Hm, Hnew. reflexivity.
Qed.

(** C5, as the code has it.  With the merge, if the call appends
    results for two clusters [a < b], then the fit that the fitting
    task returned for the input cluster [b] is not closer than
    [fit_merge_threshold_], in the plane, to the pose reported for
    [a].  In particular two input clusters whose first fits are
    closer than the threshold do not both get a result as long as
    the cluster of the smaller index has not been enlarged by a
    merge: its reported cloud is then its input cloud, and its
    reported pose the pose of its first fit. *)
Theorem merged_fits_separated
    (cls : list Cluster) (results : list TabletopResult) :
  (Z.of_nat (length cls) <= 2 ^ 31)%Z ->
  exists cls' new,
    detection cls true results = Returns cls' (results ++ new) /\
    forall ra rb cb mb restb,
      ra ∈ new -> rb ∈ new -> cloud_index_ ra < cloud_index_ rb ->
      cls !! cloud_index_ rb = Some cb ->
      fit cb 1%Z (build cb) confidence_cutoff = mb :: restb ->
      (forall ma, getPose ma = pose_ ra ->
         (fit_merge_threshold_ this <= fitDistance sqrt ma mb)%Q) /\
      (forall ca ma resta,
         cls !! cloud_index_ ra = Some ca -> cloud_ ra = ca ->
         fit ca 1%Z (build ca) confidence_cutoff = ma :: resta ->
         (fit_merge_threshold_ this <= fitDistance sqrt ma mb)%Q).
Proof.
  intros Hn.
  pose proof (merge_loop_after sqrt Index_new (returning fit) this
                confidence_cutoff (merge_fuel (length cls)) 0
                (mkLocals cls (first_fits build fit confidence_cutoff cls)
                   (init_indices (length cls)) (map build cls)))
    as Hloop.
  destruct (merge_loop _ _ _ _ _ _ _ _) as [v|v|] eqn:Hl.
  2: { apply merge_loop_returning in Hl. contradiction. }
  2: { apply merge_loop_fuel in Hl; [contradiction | exact Hn|].
       apply (fitted_sized build confidence_cutoff (returning fit)).
       apply fitted_returning. }
  destruct Hloop as (t & i' & Ht & Hi').
  pose proof (separation_inv_after sqrt Index_new build this
                confidence_cutoff fit cls t Hn) as Hinv.
  rewrite Ht in Hinv.
  destruct Hinv as ((Hsz & _) & _ & _ & _ & Hrefit & Hsep).
  simpl in Hsz.
  destruct (assemble_spec confidence_cutoff (length cls) v results Hn Hsz)
    as (new & Hnew & Hiff & _).
  exists (clusters v), new. split.
  { unfold objectDetection, merged. rewrite fitted_returning.
    unfold first_fits in Hl. rewrite Hl, Hnew. reflexivity. }
  intros ra rb cb mb restb Hra Hrb Hab Hcb Hfb.
  destruct (proj1 (Hiff (cloud_index_ ra) ra) (conj Hra eq_refl))
    as (Hown_a & m & rest & Hfa & _ & Era).
  destruct (proj1 (Hiff (cloud_index_ rb) rb) (conj Hrb eq_refl))
    as (Hown_b & _).
  set (a := cloud_index_ ra) in *. set (b := cloud_index_ rb) in *.
  pose proof Hsz as (Hc & _).
  assert (Ha : a < length cls)
    by (apply lookup_lt_Some in Hfa; destruct Hsz as (_ & <- & _);
        exact Hfa).
  assert (Hb : b < length cls) by (apply lookup_lt_Some in Hcb; exact Hcb).
  apply own_index_small in Hown_a; [|lia].
  apply own_index_small in Hown_b; [|lia].
  assert (Hfirst : fit_at (first_fits build fit confidence_cutoff cls) b
                   = Some mb).
  { apply fit_at_Some. exists restb. unfold first_fits.
    change (map (fun c => fit c 1%Z (build c) confidence_cutoff) cls)
      with ((fun c => fit c 1%Z (build c) confidence_cutoff) <$> cls).
    rewrite list_lookup_fmap, Hcb. simpl. rewrite Hfb. reflexivity. }
  assert (Hdist : (fit_merge_threshold_ this <= fitDistance sqrt m mb)%Q).
  { apply Qltb_ge. apply (Hsep a b m mb); simpl; try assumption; [lia|].
    apply fit_at_Some. exists rest. exact Hfa. }
  split.
  - intros ma Hma. rewrite (fitDistance_pose sqrt ma m mb); [exact Hdist|].
    rewrite Hma, Era. reflexivity.
  - intros ca ma resta Hca Hcloud Hfit.
    specialize (Hrefit a Ha Hown_a). cbn [loop_v] in Hrefit.
    rewrite Hfa in Hrefit. injection Hrefit as Hrefit.
    assert (Hcl : clusters v !!! a = ca)
      by (rewrite <- Hcloud, Era; reflexivity).
    assert (Hin : cls !!! a = ca)
      by (apply list_lookup_total_correct; exact Hca).
    assert (Hm : m :: rest = ma :: resta).
    { rewrite <- Hfit.
      transitivity (fit (clusters v !!! a) 1%Z (build (cls !!! a))
                        confidence_cutoff); [exact Hrefit|].
      rewrite Hcl, Hin. reflexivity. }
    injection Hm as -> _. exact Hdist.
Qed.
End ReturningFitter.

(** C3, as the code has it.  A fitter call that returns an empty list
    does not end the call: when every fitter call returns, so does
    [objectDetection], and without the merge a cluster gets a result
    exactly when its own fit result starts with a fit of sufficient
    confidence, whatever the fitter returned for the other clusters.
    A fitter call that raises is not caught: if one of the fitting
    tasks raised, the exception leaves [objectDetection] with the
    clusters as they were; and whenever an exception leaves the call,
    [results] is as it was before the call. *)
Theorem fitter_failure
    (fitBestModels : Cluster -> Z -> Index -> Q -> FitOutcome)
    (fit : Cluster -> Z -> Index -> Q -> list ModelFitInfo)
    (cls : list Cluster) (perform_fit_merge : bool)
    (results : list TabletopResult) :
  (forall c, c ∈ cls ->
     fitBestModels c 1%Z (build c) confidence_cutoff = FitThrew ->
     objectDetection sqrt Index_new build fitBestModels this
       confidence_cutoff cls perform_fit_merge results
     = Throws cls results) /\
  (forall cls' results',
     objectDetection sqrt Index_new build fitBestModels this
       confidence_cutoff cls perform_fit_merge results
     = Throws cls' results' ->
     results' = results) /\
  ((Z.of_nat (length cls) <= 2 ^ 31)%Z ->
   exists cls' new,
     objectDetection sqrt Index_new build (returning fit) this
       confidence_cutoff cls perform_fit_merge results
     = Returns cls' (results ++ new) /\
     (perform_fit_merge = false ->
      forall i c, cls !! i = Some c ->
        (exists r, r ∈ new /\ cloud_index_ r = i) <->
        exists m rest,
          fit c 1%Z (build c) confidence_cutoff = m :: rest /\
          (confidence_cutoff <= getConfidence (getScore m))%Q)).
Proof.
  split; [|split].
  - intros c Hc Hthrew. unfold objectDetection, merged.
    rewrite (proj2 (fitted_None build confidence_cutoff fitBestModels cls))
      by eauto.
    reflexivity.
  - intros cls' results'. unfold objectDetection.
    destruct (merged _ _ _ _ _ _ _ _) as [[v|v|]|];
      intros [= _ <-] || discriminate; reflexivity.
  - intros Hn.
    destruct (merged_returning sqrt Index_new build this confidence_cutoff
                fit cls perform_fit_merge Hn) as (v & i0 & Hm & Hsz & _).
    destruct (assemble_spec confidence_cutoff (length cls) v results Hn Hsz)
      as (new & Hnew & Hiff & _).
    exists (clusters v), new.
    split; [unfold objectDetection; rewrite Hm, Hnew; reflexivity|].
    intros -> i c Hc. unfold merged in Hm.
    rewrite fitted_returning in Hm. injection Hm as <-.
    assert (Hi : i < length cls) by (apply lookup_lt_Some in Hc; exact Hc).
    split.
    + intros (r & Hr). apply Hiff in Hr as (_ & m & rest & Hfit & Hle & _).
      simpl in Hfit.
      change (map (fun c => fit c 1%Z (build c) confidence_cutoff) cls)
        with ((fun c => fit c 1%Z (build c) confidence_cutoff) <$> cls)
        in Hfit.
      rewrite list_lookup_fmap, Hc in Hfit. injection Hfit as Hfit.
      exists m, rest. split; assumption.
    + intros (m & rest & Hfit & Hle). eexists. apply Hiff. simpl.
      split; [apply init_indices_lookup, Hi|].
      exists m, rest. split; [|split; [exact Hle | reflexivity]].
      change (map (fun c => fit c 1%Z (build c) confidence_cutoff) cls)
        with ((fun c => fit c 1%Z (build c) confidence_cutoff) <$> cls).
      rewrite list_lookup_fmap, Hc. simpl. rewrite Hfit. reflexivity.
Qed.
End Claims.

(** ** The properties at concrete calls *)

Lemma few_clusters (cls : list Cluster) :
  (Z.of_nat (length cls) <=? 2 ^ 31)%Z = true ->
  (Z.of_nat (length cls) <= 2 ^ 31)%Z.
Proof. apply Z.leb_le. Defined.

(** Scenario A with the merge: the call returns, the result for
    cluster [0] carries the confidence [0.99] of the score [0.9] as a
    [float], and the indices of the results increase. *)
Lemma objectDetection_emits_witness :
  (Z.of_nat (length scenario_A) <= 2 ^ 31)%Z /\
  exists (v : Locals PointIndex) new,
    detect (returning centroid_fitter) 0.5 scenario_A true []
    = Returns (clusters v) ([] ++ new) /\
    (exists r, (r ∈ new /\ cloud_index_ r = 0) /\
               (confidence_ r == 16609444 # 16777216)%Q) /\
    StronglySorted lt (cloud_index_ <$> new).
Proof.
  assert (Hn : (Z.of_nat (length scenario_A) <= 2 ^ 31)%Z)
    by (apply few_clusters; reflexivity).
  split; [exact Hn|].
  destruct (objectDetection_emits sqrt_Q PointIndex_new PointIndex_build
              TabletopObjectRecognizer_new 0.5 centroid_fitter
              scenario_A true [] Hn) as (v & new & Hm & Hd & Hiff & Hs).
  vm_compute in Hm. injection Hm as <-.
  eexists _, new. split; [exact Hd|]. split; [|exact Hs].
  eexists. split.
  - apply Hiff. split; [reflexivity|]. eexists _, _.
    split; [reflexivity|]. split; [|reflexivity].
    intros H; discriminate H.
  - vm_compute. reflexivity.
Defined.

(** Scenario A: the first iteration merges cluster [1] into cluster
    [0]. *)
Lemma merge_into_first_partner_witness :
  fitted PointIndex_build (returning centroid_fitter) 0.5 scenario_A
  = Some (loop_v (start 0.5 scenario_A)) /\
  merge_event sqrt_Q TabletopObjectRecognizer_new (start 0.5 scenario_A)
  = Some 1 /\
  0 < 1 /\
  qualifies sqrt_Q TabletopObjectRecognizer_new
            (loop_v (start 0.5 scenario_A)) 0 1 = true.
Proof.
  assert (Hfit : fitted PointIndex_build (returning centroid_fitter) 0.5
                        scenario_A
                 = Some (loop_v (start 0.5 scenario_A))) by reflexivity.
  assert (He : merge_event sqrt_Q TabletopObjectRecognizer_new
                 (merge_after sqrt_Q PointIndex_new
                    (returning centroid_fitter)
                    TabletopObjectRecognizer_new 0.5 0
                    (mkLoopState 0 (loop_v (start 0.5 scenario_A)) false))
               = Some 1) by (vm_compute; reflexivity).
  split; [exact Hfit|]. split; [exact He|].
  destruct (merge_into_first_partner sqrt_Q PointIndex_new PointIndex_build
              TabletopObjectRecognizer_new 0.5 (returning centroid_fitter)
              scenario_A (loop_v (start 0.5 scenario_A)) 0 1 Hfit He)
    as ((Hlt & Hq & _) & _).
  split; [exact Hlt | exact Hq].
Defined.

(** C2 as stated fails on [three_fragments]: the first iteration merges
    cluster [2] into cluster [0]; the scan of the next iteration does not
    go on from [2 + 1] but starts again at [0 + 1], and merges cluster
    [1], which did not qualify before the refit.  All three fragments end
    in one result. *)
Lemma inner_scan_restarts :
  let s := start 0.5 three_fragments in
  let s' := merge_next sqrt_Q PointIndex_new (returning centroid_fitter)
                       TabletopObjectRecognizer_new 0.5 s in
  qualifies sqrt_Q TabletopObjectRecognizer_new (loop_v s) 0 1 = false /\
  merge_event sqrt_Q TabletopObjectRecognizer_new s = Some 2 /\
  loop_i s' = 0 /\
  merge_event sqrt_Q TabletopObjectRecognizer_new s' = Some 1 /\
  1 < 2 + 1 /\
  returned_indices
    (detect (returning centroid_fitter) 0.5 three_fragments true [])
  = Some [0].
Proof. vm_compute. repeat split; lia. Qed.

(** A fitter call that raises for the first cluster and a fit that
    would succeed for the second: the call raises with [results] as it
    was.  With the fitter that returns an empty list for the first
    cluster, the call returns, and the second cluster, whose own fit has
    confidence [0.99], has a result. *)
Lemma fitter_failure_witness :
  [] ∈ empty_first /\
  strict_fitter [] 1 (PointIndex_build []) 0.5 = FitThrew /\
  detect strict_fitter 0.5 empty_first false [] = Throws empty_first [] /\
  (Z.of_nat (length empty_first) <= 2 ^ 31)%Z /\
  exists cls' new,
    detect (returning centroid_fitter) 0.5 empty_first false []
    = Returns cls' ([] ++ new) /\
    exists r, r ∈ new /\ cloud_index_ r = 1.
Proof.
  assert (Hin : [] ∈ empty_first) by (apply list_elem_of_here).
  assert (Hthrew : strict_fitter [] 1 (PointIndex_build []) 0.5 = FitThrew)
    by reflexivity.
  assert (Hn : (Z.of_nat (length empty_first) <= 2 ^ 31)%Z)
    by (apply few_clusters; reflexivity).
  destruct (fitter_failure sqrt_Q PointIndex_new PointIndex_build
              TabletopObjectRecognizer_new 0.5 strict_fitter
              centroid_fitter empty_first false [])
    as (Hraise & Hkept & Hreturn).
  pose proof (Hraise [] Hin Hthrew) as Hthrows.
  pose proof (Hkept empty_first [] Hthrows) as _.
  destruct (Hreturn Hn) as (cls' & new & Hd & Hown).
  split; [exact Hin|]. split; [exact Hthrew|]. split; [exact Hthrows|].
  split; [exact Hn|]. exists cls', new. split; [exact Hd|].
  apply (Hown eq_refl 1 (point_at 0) eq_refl).
  exists (centroid_fit (point_at 0)), []. split; [reflexivity|].
  intros H. discriminate H.
Defined.

(** C3 as stated fails on [empty_first]: the fitter raises for the first
    cluster, and the call raises without a result for the second, which
    it has when the failure counts as an empty list of fits. *)
Lemma fit_exception_aborts_call :
  detect strict_fitter 0.5 empty_first false [] = Throws empty_first [] /\
  returned_indices
    (detect (failure_as_empty strict_fitter) 0.5 empty_first false [])
  = Some [1].
Proof. vm_compute. split; reflexivity. Qed.

(** The confidence at [0.3] and [0.5], Scenario C of the specification
    included. *)
Lemma getConfidence_transform_witness :
  (getConfidence 0.3 == 0.51)%Q /\
  (getConfidence 0.3 <= getConfidence 0.5)%Q /\
  (0 <= getConfidence 0.3 /\ getConfidence 0.3 <= 1)%Q.
Proof.
  destruct getConfidence_transform as (_ & _ & _ & Hle & Hrange).
  split; [reflexivity|]. split.
  - apply Hle; intros H; discriminate H.
  - apply Hrange; intros H; discriminate H.
Defined.

(** [two_sided] with the merge: the call returns results for clusters
    [0] and [2], and the first fit of cluster [2] is not closer than the
    threshold to the fit reported for cluster [0], which is the fit of
    the merged clusters [0] and [1]. *)
Lemma merged_fits_separated_witness :
  (Z.of_nat (length two_sided) <= 2 ^ 31)%Z /\
  returned_indices (detect (returning centroid_fitter) 0.5 two_sided true [])
  = Some [0; 2] /\
  (fit_merge_threshold_ TabletopObjectRecognizer_new
   <= fitDistance sqrt_Q (centroid_fit (point_at 0 ++ point_at (-0.019)))
                  (centroid_fit (point_at 0.015)))%Q.
Proof.
  assert (Hn : (Z.of_nat (length two_sided) <= 2 ^ 31)%Z)
    by (apply few_clusters; reflexivity).
  split; [exact Hn|]. split; [vm_compute; reflexivity|].
  destruct (merged_fits_separated sqrt_Q PointIndex_new PointIndex_build
              TabletopObjectRecognizer_new 0.5 centroid_fitter
              two_sided [] Hn) as (cls' & new & Hd & Hsep).
  vm_compute in Hd. injection Hd as _ <-.
  lazymatch type of Hsep with
  | context [_ ∈ [?r0; ?r2]] =>
      assert (H0 : r0 ∈ [r0; r2]) by apply list_elem_of_here;
      assert (H2 : r2 ∈ [r0; r2])
        by apply list_elem_of_further, list_elem_of_here;
      assert (Hlt : cloud_index_ r0 < cloud_index_ r2) by (simpl; lia);
      apply (proj1 (Hsep r0 r2 (point_at 0.015)
                         (centroid_fit (point_at 0.015)) []
                         H0 H2 Hlt eq_refl eq_refl))
  end.
  vm_compute. reflexivity.
Defined.

(** C5 as stated fails on [two_sided]: the first fits of clusters [0] and
    [2] are [0.015] apart, below the threshold [0.02]; cluster [1]
    qualifies first and is merged into [0]; the refit moves the fit of
    cluster [0] away from cluster [2]; and the call returns one result
    for cluster [0] and one for cluster [2]. *)
Lemma close_fits_both_reported :
  centroid_fitter (point_at 0) 1 (PointIndex_build (point_at 0)) 0.5
  = [centroid_fit (point_at 0)] /\
  centroid_fitter (point_at 0.015) 1 (PointIndex_build (point_at 0.015)) 0.5
  = [centroid_fit (point_at 0.015)] /\
  Qltb (fitDistance sqrt_Q (centroid_fit (point_at 0))
                    (centroid_fit (point_at 0.015)))
       (fit_merge_threshold_ TabletopObjectRecognizer_new) = true /\
  merge_event sqrt_Q TabletopObjectRecognizer_new (start 0.5 two_sided)
  = Some 1 /\
  returned_indices
    (detect (returning centroid_fitter) 0.5 two_sided true [])
  = Some [0; 2].
Proof. vm_compute. repeat split; reflexivity. Qed.

(** The fits of the two clusters of Scenario A: their distance does not
    depend on the height, and cluster [1] qualifies for cluster [0]. *)
Lemma merge_decision_witness :
  fitDistance sqrt_Q (centroid_fit (point_at 0)) (centroid_fit (point_at 0.01))
  = fitDistance sqrt_Q (centroid_fit [mkVec3f 0 0 1])
                (centroid_fit [mkVec3f 0.01 0 2]) /\
  (Z.of_nat 1 < 2 ^ 31)%Z /\
  qualifies sqrt_Q TabletopObjectRecognizer_new
            (loop_v (start 0.5 scenario_A)) 0 1 = true /\
  cluster_model_indices (loop_v (start 0.5 scenario_A)) !! 1
  = Some (Z.of_nat 1).
Proof.
  destruct (@merge_decision sqrt_Q PointIndex TabletopObjectRecognizer_new)
    as (_ & Hxy & Hq & _).
  assert (Hj : (Z.of_nat 1 < 2 ^ 31)%Z) by reflexivity.
  assert (Hqual : qualifies sqrt_Q TabletopObjectRecognizer_new
                    (loop_v (start 0.5 scenario_A)) 0 1 = true)
    by (vm_compute; reflexivity).
  split; [apply Hxy; reflexivity|]. split; [exact Hj|].
  split; [exact Hqual|].
  exact (proj1 (proj1 (Hq (loop_v (start 0.5 scenario_A)) 0 1 Hj) Hqual)).
Defined.

(** Scenario A: after the first iteration, index [1] points at index
    [0], and [1] is the index merged away. *)
Lemma representatives_invariant_witness :
  (Z.of_nat (length scenario_A) <= 2 ^ 31)%Z /\
  fitted PointIndex_build (returning centroid_fitter) 0.5 scenario_A
  = Some (loop_v (start 0.5 scenario_A)) /\
  merge_event sqrt_Q TabletopObjectRecognizer_new (start 0.5 scenario_A)
  = Some 1 /\
  cluster_model_indices
    (loop_v (merge_after sqrt_Q PointIndex_new (returning centroid_fitter)
               TabletopObjectRecognizer_new 0.5 1 (start 0.5 scenario_A)))
  !! 1 = Some (Z.of_nat 0).
Proof.
  assert (Hn : (Z.of_nat (length scenario_A) <= 2 ^ 31)%Z)
    by (apply few_clusters; reflexivity).
  assert (Hfit : fitted PointIndex_build (returning centroid_fitter) 0.5
                        scenario_A
                 = Some (loop_v (start 0.5 scenario_A))) by reflexivity.
  assert (He : merge_event sqrt_Q TabletopObjectRecognizer_new
                 (start 0.5 scenario_A) = Some 1)
    by (vm_compute; reflexivity).
  split; [exact Hn|]. split; [exact Hfit|]. split; [exact He|].
  destruct (representatives_invariant sqrt_Q PointIndex_new PointIndex_build
              TabletopObjectRecognizer_new 0.5 (returning centroid_fitter)
              scenario_A (loop_v (start 0.5 scenario_A)) Hn Hfit)
    as (_ & _ & Hmerge & _).
  exact (proj2 (proj2 (proj2 (Hmerge 0 1 He)))).
Defined.

Lemma centroid_fitter_count (c : Cluster) (k : Z) (s : PointIndex)
    (cutoff : Q) :
  (Z.of_nat (length (centroid_fitter c k s cutoff)) <= Z.max 0 k)%Z.
Proof.
  unfold centroid_fitter. destruct c as [|p c]; [simpl; lia|].
  rewrite length_take. simpl. lia.
Defined.

(** Scenario A with [centroid_fitter], which returns at most as many fits
    as it is asked for: after two iterations no fit result has more than
    one fit. *)
Lemma one_candidate_per_cluster_witness :
  Forall (fun fits => length fits <= 1)
    (raw_fit_results
       (loop_v (merge_after sqrt_Q PointIndex_new (returning centroid_fitter)
                  TabletopObjectRecognizer_new 0.5 2
                  (start 0.5 scenario_A)))).
Proof.
  refine (proj2 (one_candidate_per_cluster sqrt_Q PointIndex_new
                   PointIndex_build TabletopObjectRecognizer_new 0.5
                   (returning centroid_fitter) scenario_A true [])
                _ (loop_v (start 0.5 scenario_A)) 2 eq_refl).
  intros c k s cutoff fits [= <-]. apply centroid_fitter_count.
Defined.

(** Scenario A with the merge, called with a result already in
    [results]: that result stays first. *)
Lemma results_only_appended_witness :
  (Z.of_nat (length scenario_A) <= 2 ^ 31)%Z /\
  forall r0,
  match detect (returning centroid_fitter) 0.5 scenario_A true [r0] with
  | Returns _ results' => exists new, results' = [r0] ++ new
  | Throws _ results' => results' = [r0]
  | OutOfFuel => False
  end.
Proof.
  assert (Hn : (Z.of_nat (length scenario_A) <= 2 ^ 31)%Z)
    by (apply few_clusters; reflexivity).
  split; [exact Hn|]. intros r0.
  pose proof (results_only_appended sqrt_Q PointIndex_new PointIndex_build
                TabletopObjectRecognizer_new 0.5 (returning centroid_fitter)
                scenario_A true [r0] Hn) as H.
  unfold detect.
  destruct (objectDetection _ _ _ _ _ _ _ _ _) as [c r|c r|];
    [exact (proj1 H) | exact H | exact H].
Defined.

(** ** Further properties of the code *)

(** *** [fitClusterDistance] *)

Lemma std_min_le_l (a b : Q) : (std_min a b <= a)%Q.
Proof.
  unfold std_min. destruct (Qltb b a) eqn:Hlt.
  - apply Qltb_lt in Hlt. apply Qlt_le_weak, Hlt.
  - apply Qle_refl.
Qed.

Lemma std_min_le_r (a b : Q) : (std_min a b <= b)%Q.
Proof.
  unfold std_min. destruct (Qltb b a) eqn:Hlt.
  - apply Qle_refl.
  - apply Qltb_ge in Hlt. exact Hlt.
Qed.

Lemma std_min_cases (a b : Q) : std_min a b = a \/ std_min a b = b.
Proof. unfold std_min. destruct (Qltb b a); [right | left]; reflexivity. Qed.

Section FitClusterDistanceFacts.
Context (sqrt : Q -> Q) {PointT : Type} (point_x point_y : PointT -> Q).

Local Abbreviation d := (point_d point_x point_y).
Local Abbreviation scan := (scan_points point_x point_y).

(** What the loop leaves in [dist]: a value that is at most the initial
    one and at most the [d] of every point, and that is the initial one
    or the [d] of one of the points. *)
Lemma scan_points_spec (m : ModelFitInfo) (points : list PointT) (dist : Q) :
  (scan m dist points <= dist)%Q /\
  Forall (fun p => (scan m dist points <= d m p)%Q) points /\
  (scan m dist points = dist \/
   exists p, p ∈ points /\ scan m dist points = d m p).
Proof.
  revert dist. induction points as [|p points IH]; intros dist; simpl.
  - split; [apply Qle_refl|]. split; [constructor | left; reflexivity].
  - destruct (IH (std_min (d m p) dist)) as (Hle & Hall & Hattained).
    split; [eapply Qle_trans; [exact Hle | apply std_min_le_r]|].
    split.
    + constructor; [eapply Qle_trans; [exact Hle | apply std_min_le_l]|].
      exact Hall.
    + destruct Hattained as [Heq|(q & Hq & Heq)].
      * destruct (std_min_cases (d m p) dist) as [Hmin|Hmin].
        -- right. exists p. split; [apply list_elem_of_here|].
           exact (eq_trans Heq Hmin).
        -- left. exact (eq_trans Heq Hmin).
      * right. exists q. split; [apply list_elem_of_further, Hq | exact Heq].
Qed.

(** X4. The distance of a fit to a cluster is the square root of the smallest
    squared planar distance of a point of the cluster to the position of
    the fit, capped at [100 * 100]: the value under the root is at most
    [100 * 100] and at most the squared distance of every point, and it
    is [100 * 100] or the squared distance of one of the points.  For a
    cluster without points it is the root of [100 * 100]. *)
Theorem fitClusterDistance_nearest (m : ModelFitInfo) (points : list PointT) :
  (exists dist,
     fitClusterDistance sqrt point_x point_y m points = sqrt dist /\
     (dist <= 100 * 100)%Q /\
     Forall (fun p => (dist <= d m p)%Q) points /\
     (dist = (100 * 100)%Q \/ exists p, p ∈ points /\ dist = d m p)) /\
  fitClusterDistance sqrt point_x point_y m [] = sqrt (100 * 100)%Q.
Proof.
  split; [|reflexivity].
  exists (scan m (100 * 100)%Q points).
  split; [reflexivity|]. apply scan_points_spec.
Qed.
End FitClusterDistanceFacts.

(** *** [getConfidence] on arbitrary scores *)

Lemma Qsquare_nonneg (a : Q) : (0 <= a * a)%Q.
Proof. destruct (Qlt_le_dec a 0); nra. Qed.

(** X2. Outside [[0, 1]] too the confidence never exceeds [1]: it increases
    up to the score [1] and decreases from there on, so that a score
    above [1] does not raise it; a score of at most [0] or at least [2]
    has a confidence of at most [0], and the test against a positive
    cutoff discards it. *)
Theorem getConfidence_range :
  (forall s : Q, getConfidence s <= 1)%Q /\
  (forall s t : Q, s <= t -> t <= 1 ->
                   getConfidence s <= getConfidence t)%Q /\
  (forall s t : Q, 1 <= s -> s <= t ->
                   getConfidence t <= getConfidence s)%Q /\
  (forall s : Q, s <= 0 \/ 2 <= s -> getConfidence s <= 0)%Q /\
  (forall s cutoff : Q, s <= 0 \/ 2 <= s -> 0 < cutoff ->
     Qltb (getConfidence s) cutoff = true)%Q.
Proof.
  unfold getConfidence.
  split; [intros s; pose proof (Qsquare_nonneg (1 - s)); lra|].
  split; [intros s t Hst Ht; nra|].
  split; [intros s t Hs Hst; nra|].
  split; [intros s [Hs|Hs]; nra|].
  intros s cutoff Hs Hc. apply Qltb_lt.
  apply Qle_lt_trans with (y := 0%Q); [destruct Hs; nra | exact Hc].
Qed.

Lemma getConfidence_range_witness :
  (getConfidence (-1) <= getConfidence 0.5)%Q /\
  (getConfidence 3 <= getConfidence 1.5)%Q /\
  (getConfidence 3 <= 0)%Q /\
  Qltb (getConfidence 3) 0.5 = true.
Proof.
  destruct getConfidence_range as (_ & Hup & Hdown & Hneg & Hdrop).
  split; [apply Hup; intros H; discriminate H|].
  split; [apply Hdown; intros H; discriminate H|].
  split; [apply Hneg; right; intros H; discriminate H|].
  apply Hdrop; [right; intros H; discriminate H | reflexivity].
Defined.

(** *** The merge loop: iterations and merges *)

Section MergeBounds.
Context (sqrt : Q -> Q) {Index : Type} (Index_new : Index).
Context (build : Cluster -> Index).
Context (fitBestModels : Cluster -> Z -> Index -> Q -> FitOutcome).
Context (this : TabletopObjectRecognizer) (confidence_cutoff : Q).

Local Abbreviation next :=
  (merge_next sqrt Index_new fitBestModels this confidence_cutoff).
Local Abbreviation after :=
  (merge_after sqrt Index_new fitBestModels this confidence_cutoff).
Local Abbreviation away :=
  (merged_away sqrt Index_new fitBestModels this confidence_cutoff).

Lemma merge_after_final (t : nat) (s : LoopState Index) :
  final s -> after t s = s.
Proof.
  intros Hf. induction t as [|t IH]; [reflexivity|].
  rewrite merge_after_S, merge_next_final by exact Hf. exact IH.
Qed.

(** An iteration never lowers the outer index. *)
Lemma next_i_le (s : LoopState Index) : loop_i s <= loop_i (next s).
Proof.
  destruct (loop_raised s) eqn:Hr;
    [rewrite merge_next_final by (left; exact Hr); lia|].
  destruct (decide (loop_i s < length (clusters (loop_v s)))) as [Hi|Hi];
    [|rewrite merge_next_final by (right; lia); lia].
  destruct (merge_next_running sqrt Index_new fitBestModels this
              confidence_cutoff s Hr Hi)
    as [_ ->|j v' _ _ ->|j _ _ ->]; simpl; lia.
Qed.

(** From a state that is not final, the outer index advances or one
    index fewer points at itself; so the loop is over after as many
    iterations as the two numbers add up to. *)
Lemma merge_after_measure (n k : nat) (s : LoopState Index) :
  (Z.of_nat n <= 2 ^ 31)%Z -> merge_inv n s ->
  loop_raised s = true \/
  (n - loop_i s) + count_own (cluster_model_indices (loop_v s)) n <= k ->
  final (after k s).
Proof.
  intros Hn. revert s. induction k as [|k IH]; intros s Hinv Hm.
  - simpl. destruct Hm as [Hr|Hm]; [left; exact Hr|].
    right. destruct Hinv as ((Hc & _) & _). lia.
  - destruct (loop_raised s) eqn:Hr.
    { rewrite merge_after_final by (left; exact Hr). left. exact Hr. }
    destruct (decide (loop_i s < length (clusters (loop_v s)))) as [Hi|Hi].
    2: { rewrite merge_after_final by (right; lia). right. lia. }
    destruct Hm as [Hm|Hm]; [discriminate|].
    pose proof Hinv as ((Hc & _) & _).
    rewrite merge_after_S.
    apply IH; [apply merge_inv_next; assumption|].
    destruct (merge_next_running sqrt Index_new fitBestModels this
                confidence_cutoff s Hr Hi)
      as [_ ->|j v' Hp Hf ->|j _ _ ->]; simpl.
    + right. lia.
    + right. rewrite (refit_indices _ _ _ _ _ _ Hf). simpl.
      apply merged_index_Some in Hp as (_ & _ & Hj & Hq & _).
      apply andb_true_iff in Hq as (Hown & _).
      pose proof (count_own_insert_lt (cluster_model_indices (loop_v s)) j n
                    (Z.of_nat (loop_i s))) as Hcount.
      rewrite <- Hcount in Hm;
        [lia | lia | exact Hown | apply own_index_absorbed; lia].
    + left. reflexivity.
Qed.

(** An index that some later iteration merges away points at itself and
    lies after the outer index. *)
Lemma merged_away_own (n t : nat) (s : LoopState Index) (j : nat) :
  (Z.of_nat n <= 2 ^ 31)%Z -> merge_inv n s ->
  j ∈ away t s ->
  cluster_model_indices (loop_v s) !! j = Some (Z.of_nat j) /\
  loop_i s < j < n.
Proof.
  intros Hn. revert s. induction t as [|t IH]; intros s Hinv Hj; simpl in Hj.
  - inversion Hj.
  - assert (Hrest : j ∈ away t (next s) ->
              cluster_model_indices (loop_v s) !! j = Some (Z.of_nat j) /\
              loop_i s < j < n).
    { intros Hin. apply IH in Hin as (Hown & Hlt);
        [|apply merge_inv_next; assumption].
      apply (next_own sqrt Index_new fitBestModels this confidence_cutoff n)
        in Hown as (Hown & _); [|exact Hn|apply Hinv].
      pose proof (next_i_le s). split; [exact Hown | lia]. }
    destruct (merge_event sqrt this s) as [e|] eqn:He; [|exact (Hrest Hj)].
    apply elem_of_cons in Hj as [->|Hj]; [|exact (Hrest Hj)].
    pose proof (merge_event_own sqrt this n s e Hn (proj1 Hinv) He)
      as (Hlt & _ & Hown).
    split; [exact Hown | exact Hlt].
Qed.

Lemma merged_away_NoDup (n t : nat) (s : LoopState Index) :
  (Z.of_nat n <= 2 ^ 31)%Z -> merge_inv n s -> NoDup (away t s).
Proof.
  intros Hn. revert s. induction t as [|t IH]; intros s Hinv; simpl.
  - constructor.
  - pose proof (IH (next s) (merge_inv_next sqrt Index_new fitBestModels this
                              confidence_cutoff n s Hn Hinv)) as Hrest.
    destruct (merge_event sqrt this s) as [e|] eqn:He; [|exact Hrest].
    constructor; [|exact Hrest].
    intros Hin. apply (merged_away_own n) in Hin as (Hown & _);
      [|exact Hn|apply merge_inv_next; assumption].
    apply (next_own sqrt Index_new fitBestModels this confidence_cutoff n)
      in Hown as (_ & Hne); [|exact Hn|apply Hinv].
    contradiction.
Qed.

(** X1. A call on no clusters returns at once with [clusters] and
    [results] as they are, with or without the merge, and whatever the
    fitter would do: it is not called. *)
Theorem no_clusters (perform_fit_merge : bool)
    (results : list TabletopResult) :
  objectDetection sqrt Index_new build fitBestModels this confidence_cutoff
                  [] perform_fit_merge results
  = Returns [] results.
Proof. destruct perform_fit_merge; reflexivity. Qed.

(** X6. The merge loop of a call on [n] clusters is over after [2 * n]
    iterations at most: the state then is final, and further iterations
    do not change it. *)
Theorem merge_loop_iterations (cls : list Cluster) (v : Locals Index)
    (t : nat) :
  (Z.of_nat (length cls) <= 2 ^ 31)%Z ->
  fitted build fitBestModels confidence_cutoff cls = Some v ->
  2 * length cls <= t ->
  final (after t (mkLoopState 0 v false)) /\
  after t (mkLoopState 0 v false)
  = after (2 * length cls) (mkLoopState 0 v false).
Proof.
  intros Hn Hfit Ht.
  pose proof (fitted_inv build confidence_cutoff fitBestModels cls v Hfit)
    as Hinv.
  assert (Hfinal : final (after (2 * length cls) (mkLoopState 0 v false))).
  { apply (merge_after_measure (length cls)); [exact Hn | exact Hinv|].
    right. simpl.
    pose proof (count_own_le (cluster_model_indices v) (length cls)). lia. }
  replace t with (2 * length cls + (t - 2 * length cls)) by lia.
  rewrite merge_after_add, merge_after_final by exact Hfinal.
  split; [exact Hfinal | reflexivity].
Qed.

(** X7. No cluster is merged away twice, the first cluster is never merged
    away, and every cluster merged away lies after the cluster it is
    merged into; so a call on [n] clusters merges, and calls the fitter
    for a refit, at most [n - 1] times. *)
Theorem merges_bounded (cls : list Cluster) (v : Locals Index) (t : nat) :
  (Z.of_nat (length cls) <= 2 ^ 31)%Z ->
  fitted build fitBestModels confidence_cutoff cls = Some v ->
  NoDup (away t (mkLoopState 0 v false)) /\
  (forall j, j ∈ away t (mkLoopState 0 v false) -> 0 < j < length cls) /\
  length (away t (mkLoopState 0 v false)) <= length cls - 1.
Proof.
  intros Hn Hfit.
  pose proof (fitted_inv build confidence_cutoff fitBestModels cls v Hfit)
    as Hinv.
  pose proof (merged_away_NoDup (length cls) t _ Hn Hinv) as Hnodup.
  assert (Hrange : forall j, j ∈ away t (mkLoopState 0 v false) ->
                             0 < j < length cls).
  { intros j Hj. apply (merged_away_own (length cls)) in Hj as (_ & Hj);
      [exact Hj | exact Hn | exact Hinv]. }
  split; [exact Hnodup|]. split; [exact Hrange|].
  assert (Hsub : away t (mkLoopState 0 v false) ⊆+ seq 1 (length cls - 1)).
  { apply NoDup_submseteq; [exact Hnodup|].
    intros j Hj. apply Hrange in Hj. apply elem_of_seq. lia. }
  apply submseteq_length in Hsub. rewrite length_seq in Hsub. exact Hsub.
Qed.
End MergeBounds.

(** *** What the merge does to the clusters *)

Lemma filter_none {A : Type} (f : A -> bool) (l : list A) :
  (forall a, a ∈ l -> f a = false) -> List.filter f l = [].
Proof.
  induction l as [|a l IH]; intros Hf; simpl; [reflexivity|].
  rewrite (Hf a) by apply list_elem_of_here.
  apply IH. intros b Hb. apply Hf, list_elem_of_further, Hb.
Qed.

Lemma filter_agree {A : Type} (f g : A -> bool) (l : list A) :
  (forall a, a ∈ l -> g a = f a) -> List.filter g l = List.filter f l.
Proof.
  induction l as [|a l IH]; intros Hfg; simpl; [reflexivity|].
  rewrite (Hfg a) by apply list_elem_of_here.
  rewrite IH by (intros b Hb; apply Hfg, list_elem_of_further, Hb).
  reflexivity.
Qed.

(** Filtering a list without duplicates for one of its elements. *)
Lemma filter_only (f : nat -> bool) (l : list nat) (k : nat) :
  NoDup l -> k ∈ l -> f k = true ->
  (forall m, m ∈ l -> m <> k -> f m = false) ->
  List.filter f l = [k].
Proof.
  induction l as [|a l IH]; intros Hnd Hk Hfk Hf; [inversion Hk|].
  apply NoDup_cons in Hnd as (Ha & Hnd). simpl.
  destruct (decide (a = k)) as [->|Hne].
  - rewrite Hfk. f_equal. apply filter_none.
    intros m Hm. apply Hf; [apply list_elem_of_further, Hm|].
    intros ->. contradiction.
  - rewrite (Hf a) by (apply list_elem_of_here || exact Hne).
    apply elem_of_cons in Hk as [->|Hk]; [contradiction|].
    apply IH; try assumption.
    intros m Hm. apply Hf, list_elem_of_further, Hm.
Qed.

(** Letting one more element of a list without duplicates through a
    filter. *)
Lemma filter_one_more (f g : nat -> bool) (l : list nat) (j : nat) :
  NoDup l -> j ∈ l -> f j = false -> g j = true ->
  (forall m, m <> j -> g m = f m) ->
  List.filter g l ≡ₚ j :: List.filter f l.
Proof.
  induction l as [|a l IH]; intros Hnd Hj Hfj Hgj Hfg; [inversion Hj|].
  apply NoDup_cons in Hnd as (Ha & Hnd). simpl.
  destruct (decide (a = j)) as [->|Hne].
  - rewrite Hfj, Hgj. apply Permutation_cons; [reflexivity|].
    rewrite (filter_agree f g); [reflexivity|].
    intros m Hm. apply Hfg. intros ->. contradiction.
  - apply elem_of_cons in Hj as [->|Hj]; [contradiction|].
    rewrite (Hfg a Hne). destruct (f a).
    + rewrite (IH Hnd Hj Hfj Hgj Hfg). apply perm_swap.
    + apply IH; assumption.
Qed.

Lemma members_elem (indices : list Z) (m k : nat) :
  m ∈ members indices k <-> indices !! m = Some (Z.of_nat k).
Proof.
  unfold members. rewrite list_elem_of_In, filter_In, <- list_elem_of_In.
  rewrite elem_of_seq. split.
  - intros (_ & Hf). destruct (indices !! m) as [r|]; [|discriminate].
    apply Z.eqb_eq in Hf. rewrite Hf. reflexivity.
  - intros Hm. split; [apply lookup_lt_Some in Hm; lia|].
    rewrite Hm. apply Z.eqb_refl.
Qed.

(** When every index points at itself, only [k] points at [k]. *)
Lemma members_init (n k : nat) :
  k < n -> members (init_indices n) k = [k].
Proof.
  intros Hk. unfold members. rewrite init_indices_length.
  apply filter_only.
  - apply NoDup_seq.
  - apply elem_of_seq. lia.
  - rewrite init_indices_lookup by exact Hk. apply Z.eqb_refl.
  - intros m Hm Hne. apply elem_of_seq in Hm.
    rewrite init_indices_lookup by lia. apply Z.eqb_neq. lia.
Qed.

(** Making [j], which pointed elsewhere, point at [k] adds [j] to the
    indices that point at [k]. *)
Lemma members_insert_new (indices : list Z) (j k : nat) (r : Z) :
  indices !! j = Some r -> r <> Z.of_nat k ->
  members (<[j := Z.of_nat k]> indices) k ≡ₚ j :: members indices k.
Proof.
  intros Hj Hr. unfold members. rewrite length_insert.
  pose proof (lookup_lt_Some _ _ _ Hj) as Hlt.
  apply filter_one_more.
  - apply NoDup_seq.
  - apply elem_of_seq. lia.
  - rewrite Hj. apply Z.eqb_neq. exact Hr.
  - rewrite list_lookup_insert_eq by exact Hlt. apply Z.eqb_refl.
  - intros m Hne. rewrite list_lookup_insert_ne by congruence. reflexivity.
Qed.

(** It changes nothing for the indices that point at another index. *)
Lemma members_insert_other (indices : list Z) (j k : nat) (r r' : Z) :
  indices !! j = Some r -> r <> Z.of_nat k -> r' <> Z.of_nat k ->
  members (<[j := r']> indices) k = members indices k.
Proof.
  intros Hj Hr Hr'. unfold members. rewrite length_insert.
  pose proof (lookup_lt_Some _ _ _ Hj) as Hlt.
  apply filter_agree. intros m _.
  destruct (decide (j = m)) as [<-|Hne].
  - rewrite list_lookup_insert_eq by exact Hlt. rewrite Hj.
    rewrite (proj2 (Z.eqb_neq _ _) Hr), (proj2 (Z.eqb_neq _ _) Hr').
    reflexivity.
  - rewrite list_lookup_insert_ne by exact Hne. reflexivity.
Qed.

Section MergedClusters.
Context (sqrt : Q -> Q) {Index : Type} (Index_new : Index).
Context (build : Cluster -> Index).
Context (fitBestModels : Cluster -> Z -> Index -> Q -> FitOutcome).
Context (this : TabletopObjectRecognizer) (confidence_cutoff : Q).

Local Abbreviation next :=
  (merge_next sqrt Index_new fitBestModels this confidence_cutoff).
Local Abbreviation after :=
  (merge_after sqrt Index_new fitBestModels this confidence_cutoff).

(** An iteration changes the clusters at the outer index only, by
    appending the cluster it merges. *)
Lemma next_clusters (s : LoopState Index) :
  clusters (loop_v (next s)) =
  match merge_event sqrt this s with
  | Some j =>
      <[loop_i s := (clusters (loop_v s) !!! loop_i s)
                    ++ (clusters (loop_v s) !!! j)]> (clusters (loop_v s))
  | None => clusters (loop_v s)
  end.
Proof.
  destruct (merge_event sqrt this s) as [j|] eqn:He.
  - rewrite (merge_next_event _ _ _ _ _ s j He).
    destruct (refit _ _ _ _ _) as [v'|] eqn:Hf; [|reflexivity].
    apply refit_Some in Hf as (fits & _ & ->). reflexivity.
  - destruct (loop_raised s) eqn:Hr;
      [rewrite merge_next_final by (left; exact Hr); reflexivity|].
    destruct (decide (loop_i s < length (clusters (loop_v s)))) as [Hi|Hi];
      [|rewrite merge_next_final by (right; lia); reflexivity].
    pose proof (merge_event_None _ _ s He Hr Hi) as Hp.
    destruct (merge_next_running sqrt Index_new fitBestModels this
                confidence_cutoff s Hr Hi)
      as [_ ->|j' v' Hp' _ _|j' Hp' _ _]; [reflexivity| |]; congruence.
Qed.

Lemma next_i_event (s : LoopState Index) (j : nat) :
  merge_event sqrt this s = Some j -> loop_i (next s) = loop_i s.
Proof.
  intros He. rewrite (merge_next_event _ _ _ _ _ s j He).
  destruct (refit _ _ _ _ _); reflexivity.
Qed.

(** Every iteration keeps the clusters made of the input clusters. *)
Lemma gathers_next (cls : list Cluster) (s : LoopState Index) :
  (Z.of_nat (length cls) <= 2 ^ 31)%Z ->
  merge_inv (length cls) s -> gathers cls s -> gathers cls (next s).
Proof.
  intros Hn Hinv Hg k Hk.
  pose proof Hinv as ((Hc & _ & Hilen & _) & _).
  destruct (Hg k Hk) as (Hown_k & Hsame_k).
  rewrite next_indices, next_clusters.
  destruct (merge_event sqrt this s) as [j|] eqn:He.
  - pose proof (merge_event_own sqrt this (length cls) s j Hn (proj1 Hinv) He)
      as (Hij & Hi & Hj).
    rewrite (next_i_event s j He).
    assert (Hcj : clusters (loop_v s) !!! j = cls !!! j).
    { rewrite !list_lookup_total_alt.
      rewrite (proj2 (Hg j ltac:(lia))) by (right; lia). reflexivity. }
    pose proof (proj1 (Hg (loop_i s) ltac:(lia)) Hi) as Hgi.
    set (i := loop_i s) in *. set (v := loop_v s) in *.
    split.
    + intros Hk'. destruct (decide (k = j)) as [->|Hkj].
      { rewrite list_lookup_insert_eq in Hk' by lia.
        injection Hk' as Hk'. lia. }
      rewrite list_lookup_insert_ne in Hk' by congruence.
      destruct (decide (k = i)) as [->|Hki].
      * rewrite list_lookup_total_insert_eq by lia.
        unfold gathered.
        rewrite (members_insert_new _ j i (Z.of_nat j) Hj) by lia.
        simpl. rewrite Hcj.
        rewrite Hgi. apply Permutation_app_comm.
      * rewrite list_lookup_total_insert_ne by congruence.
        unfold gathered.
        rewrite (members_insert_other _ j k (Z.of_nat j) _ Hj) by lia.
        apply Hown_k, Hk'.
    + intros Hk'. destruct (decide (k = i)) as [->|Hki].
      { destruct Hk' as [Hk'|Hk']; [|lia].
        rewrite list_lookup_insert_ne in Hk' by lia. contradiction. }
      rewrite list_lookup_insert_ne by congruence.
      apply Hsame_k. destruct (decide (k = j)) as [->|Hkj]; [right; lia|].
      rewrite list_lookup_insert_ne in Hk' by congruence. exact Hk'.
  - split; [exact Hown_k|].
    intros [Hk'|Hk']; apply Hsame_k; [left; exact Hk'|].
    right. pose proof (next_i_le sqrt Index_new fitBestModels this
                         confidence_cutoff s). lia.
Qed.

(** The clusters are made of the input clusters in every state of the
    merge loop of a call. *)
Lemma gathers_after (cls : list Cluster) (v : Locals Index) (t : nat) :
  (Z.of_nat (length cls) <= 2 ^ 31)%Z ->
  fitted build fitBestModels confidence_cutoff cls = Some v ->
  gathers cls (after t (mkLoopState 0 v false)).
Proof.
  intros Hn Hfit.
  pose proof (fitted_inv build confidence_cutoff fitBestModels cls v Hfit)
    as Hinv.
  assert (Hboth : merge_inv (length cls) (after t (mkLoopState 0 v false)) /\
                  gathers cls (after t (mkLoopState 0 v false))).
  { apply (merge_after_ind sqrt Index_new fitBestModels this confidence_cutoff
             (fun s => merge_inv (length cls) s /\ gathers cls s)).
    - intros s (Hi & Hg). split;
        [apply merge_inv_next | apply gathers_next]; assumption.
    - split; [exact Hinv|].
      apply fitted_Some in Hfit as (Hc & Hi & _).
      intros k Hk. simpl. rewrite Hc, Hi. split; [|reflexivity].
      intros _. unfold gathered. rewrite members_init by exact Hk.
      simpl. rewrite app_nil_r. reflexivity. }
  exact (proj2 Hboth).
Qed.

(** X8. A call never takes a point from a cluster and never drops a cluster:
    whether it returns or an exception leaves it, the caller has as many
    clusters as before, and each cluster starts with the points it had;
    what the merge appends comes after them. *)
Theorem clusters_only_extended
    (cls : list Cluster) (perform_fit_merge : bool)
    (results : list TabletopResult) :
  (Z.of_nat (length cls) <= 2 ^ 31)%Z ->
  let kept (cls' : list Cluster) :=
    length cls' = length cls /\
    forall k c, cls !! k = Some c ->
                exists extra, cls' !! k = Some (c ++ extra) in
  match objectDetection sqrt Index_new build fitBestModels this
                        confidence_cutoff cls perform_fit_merge results with
  | Returns cls' _ => kept cls'
  | Throws cls' _ => kept cls'
  | OutOfFuel => False
  end.
Proof.
  intros Hn kept.
  assert (Hsame : kept cls).
  { split; [reflexivity|]. intros k c Hk. exists []. rewrite app_nil_r.
    exact Hk. }
  unfold objectDetection, merged.
  destruct (fitted build fitBestModels confidence_cutoff cls) as [v0|] eqn:Hfit;
    [|exact Hsame].
  pose proof (fitted_Some build confidence_cutoff fitBestModels cls v0 Hfit)
    as (Hc0 & _).
  destruct perform_fit_merge; [|rewrite Hc0; exact Hsame].
  assert (Hkept : forall t,
             kept (clusters (loop_v (after t (mkLoopState 0 v0 false))))).
  { intros t.
    apply (merge_after_ind sqrt Index_new fitBestModels this confidence_cutoff
             (fun s => kept (clusters (loop_v s)))); [|simpl; rewrite Hc0; exact Hsame].
    intros s (Hlen & Hpre). rewrite next_clusters.
    destruct (merge_event sqrt this s) as [j|]; [|split; assumption].
    split; [rewrite length_insert; exact Hlen|].
    intros k c Hk. destruct (Hpre k c Hk) as (extra & Hextra).
    destruct (decide (loop_i s = k)) as [<-|Hne].
    - rewrite list_lookup_insert_eq by (apply lookup_lt_Some in Hextra; exact Hextra).
      rewrite (list_lookup_total_correct _ _ _ Hextra), <- app_assoc. eauto.
    - rewrite list_lookup_insert_ne by exact Hne. eauto. }
  pose proof (merge_loop_after sqrt Index_new fitBestModels this
                confidence_cutoff (merge_fuel (length cls)) 0 v0) as Hloop.
  destruct (merge_loop _ _ _ _ _ _ _ _) as [v|v|] eqn:Hl.
  - destruct Hloop as (t & i' & Ht & _). specialize (Hkept t).
    rewrite Ht in Hkept. exact Hkept.
  - destruct Hloop as (t & i' & Ht). specialize (Hkept t).
    rewrite Ht in Hkept. exact Hkept.
  - apply merge_loop_fuel in Hl; [contradiction | exact Hn|].
    apply fitted_sized in Hfit. exact Hfit.
Qed.
End MergedClusters.

(** *** What a call reports *)

Section Reports.
Context (sqrt : Q -> Q) {Index : Type} (Index_new : Index).
Context (build : Cluster -> Index).
Context (this : TabletopObjectRecognizer) (confidence_cutoff : Q).
Context (fit : Cluster -> Z -> Index -> Q -> list ModelFitInfo).

Local Abbreviation detection :=
  (objectDetection sqrt Index_new build (returning fit) this
                   confidence_cutoff).
Local Abbreviation begin cls :=
  (mkLoopState 0
     (mkLocals cls (first_fits build fit confidence_cutoff cls)
               (init_indices (length cls)) (map build cls))
     false).

(** With a fitter that returns, the last loop is entered in a state of
    the merge loop. *)
Lemma merged_reached (cls : list Cluster) (perform_fit_merge : bool) :
  (Z.of_nat (length cls) <= 2 ^ 31)%Z ->
  exists v t i',
    merged sqrt Index_new build (returning fit) this confidence_cutoff
           cls perform_fit_merge = Some (LoopDone v) /\
    merge_after sqrt Index_new (returning fit) this confidence_cutoff t
                (begin cls)
    = mkLoopState i' v false.
Proof.
  intros Hn. unfold merged. rewrite fitted_returning.
  destruct perform_fit_merge.
  - pose proof (merge_loop_after sqrt Index_new (returning fit) this
                  confidence_cutoff (merge_fuel (length cls)) 0
                  (loop_v (begin cls))) as Hloop.
    destruct (merge_loop _ _ _ _ _ _ _ _) as [v|v|] eqn:Hl.
    + destruct Hloop as (t & i' & Ht & _). exists v, t, i'.
      split; [reflexivity | exact Ht].
    + apply merge_loop_returning in Hl. contradiction.
    + apply merge_loop_fuel in Hl; [contradiction | exact Hn|].
      apply (fitted_sized build confidence_cutoff (returning fit)).
      apply fitted_returning.
  - exists (loop_v (begin cls)), 0, 0. split; reflexivity.
Qed.

(** The results of a call, with what the invariants of the merge loop
    say about the locals they are read from. *)
Lemma detection_report (cls : list Cluster) (perform_fit_merge : bool)
    (results : list TabletopResult) :
  (Z.of_nat (length cls) <= 2 ^ 31)%Z ->
  exists v new i',
    merged sqrt Index_new build (returning fit) this confidence_cutoff
           cls perform_fit_merge = Some (LoopDone v) /\
    detection cls perform_fit_merge results
    = Returns (clusters v) (results ++ new) /\
    (forall r, r ∈ new ->
       cloud_index_ r < length cls /\
       cluster_model_indices v !! cloud_index_ r
       = Some (Z.of_nat (cloud_index_ r)) /\
       exists m rest,
         raw_fit_results v !! cloud_index_ r = Some (m :: rest) /\
         (confidence_cutoff <= getConfidence (getScore m))%Q /\
         r = {| pose_ := getPose m;
                confidence_ := float_of_double (getConfidence (getScore m));
                object_id_ := getModelId m;
                cloud_ := clusters v !!! cloud_index_ r;
                cloud_index_ := cloud_index_ r |}) /\
    sized (length cls) v /\
    gathers cls (mkLoopState i' v false) /\
    refitted build fit confidence_cutoff cls (mkLoopState i' v false).
Proof.
  intros Hn.
  destruct (merged_reached cls perform_fit_merge Hn) as (v & t & i' & Hm & Ht).
  pose proof (separation_inv_after sqrt Index_new build this confidence_cutoff
                fit cls t Hn) as Hinv.
  pose proof (gathers_after sqrt Index_new build (returning fit) this
                confidence_cutoff cls (loop_v (begin cls)) t Hn
                (fitted_returning build confidence_cutoff fit cls)) as Hg.
  change (mkLoopState 0 (loop_v (begin cls)) false) with (begin cls) in Hg.
  rewrite Ht in Hinv, Hg.
  destruct Hinv as ((Hsz & _) & _ & _ & _ & Hrefit & _). simpl in Hsz.
  destruct (assemble_spec confidence_cutoff (length cls) v results Hn Hsz)
    as (new & Hnew & Hiff & _).
  exists v, new, i'. split; [exact Hm|].
  split; [unfold objectDetection; rewrite Hm, Hnew; reflexivity|].
  split; [|split; [exact Hsz | split; assumption]].
  intros r Hr.
  destruct (proj1 (Hiff (cloud_index_ r) r) (conj Hr eq_refl))
    as (Hown & m & rest & Hfit & Hle & Er).
  split; [apply lookup_lt_Some in Hown; destruct Hsz as (_ & _ & <- & _);
          exact Hown|].
  split; [exact Hown|]. exists m, rest. repeat split; assumption.
Qed.

(** X9. The cloud of a result consists of the points of the input clusters
    whose indices point at the cluster of the result, each point as
    often as it occurs in them: the cloud is a rearrangement of these
    clusters put one after the other, and a point is in the cloud exactly
    when it is in one of them.  A cluster that was merged away still has
    its own points after the call. *)
Theorem reported_cloud (cls : list Cluster) (perform_fit_merge : bool)
    (results : list TabletopResult) :
  (Z.of_nat (length cls) <= 2 ^ 31)%Z ->
  exists v new,
    merged sqrt Index_new build (returning fit) this confidence_cutoff
           cls perform_fit_merge = Some (LoopDone v) /\
    detection cls perform_fit_merge results
    = Returns (clusters v) (results ++ new) /\
    (forall r, r ∈ new ->
       cloud_ r ≡ₚ gathered cls (cluster_model_indices v) (cloud_index_ r) /\
       forall p, p ∈ cloud_ r <->
         exists m c, cluster_model_indices v !! m
                     = Some (Z.of_nat (cloud_index_ r)) /\
                     cls !! m = Some c /\ p ∈ c) /\
    (forall k c, cls !! k = Some c ->
       cluster_model_indices v !! k <> Some (Z.of_nat k) ->
       clusters v !! k = Some c).
Proof.
  intros Hn.
  destruct (detection_report cls perform_fit_merge results Hn)
    as (v & new & i' & Hm & Hd & Hnew & (_ & _ & Hilen & _) & Hg & _).
  exists v, new. split; [exact Hm|]. split; [exact Hd|]. split.
  - intros r Hr. destruct (Hnew r Hr) as (Hlt & Hown & m & rest & _ & _ & Er).
    assert (Hcloud : cloud_ r = clusters v !!! cloud_index_ r)
      by (rewrite Er at 1; reflexivity).
    assert (Hperm : cloud_ r ≡ₚ gathered cls (cluster_model_indices v)
                                         (cloud_index_ r)).
    { rewrite Hcloud. apply (proj1 (Hg (cloud_index_ r) Hlt)). exact Hown. }
    split; [exact Hperm|].
    intros p. rewrite Hperm. unfold gathered.
    rewrite list_elem_of_In, in_flat_map. split.
    + intros (m' & Hin & Hp). apply list_elem_of_In, members_elem in Hin.
      assert (Hm' : m' < length cls).
      { apply lookup_lt_Some in Hin. lia. }
      destruct (lookup_lt_is_Some_2 cls m' Hm') as (c & Hc).
      exists m', c. split; [exact Hin|]. split; [exact Hc|].
      apply list_elem_of_In. rewrite (list_lookup_total_correct _ _ _ Hc) in Hp.
      exact Hp.
    + intros (m' & c & Hin & Hc & Hp). exists m'.
      split; [apply list_elem_of_In, members_elem, Hin|].
      rewrite (list_lookup_total_correct _ _ _ Hc).
      apply list_elem_of_In, Hp.
  - intros k c Hk Hne.
    pose proof (proj2 (Hg k (lookup_lt_Some _ _ _ Hk)) (or_introl Hne))
      as Hsame.
    simpl in Hsame. rewrite Hsame. exact Hk.
Qed.

(** X10. What a result says about the fit is what the fitter returns for the
    cloud of the result: model and pose are those of the first fit of
    the fitter on [cloud_ r], called for one candidate with the search
    index built from the input cluster of the same index; so after a
    merge the reported fit belongs to the merged cloud, while the search
    index is still that of the first fragment.  The confidence
    [1 - (1 - score) * (1 - score)] of that fit is at least the cutoff,
    and [confidence_ r] is this confidence converted to [float]. *)
Theorem reported_fit (cls : list Cluster) (perform_fit_merge : bool)
    (results : list TabletopResult) :
  (Z.of_nat (length cls) <= 2 ^ 31)%Z ->
  exists cls' new,
    detection cls perform_fit_merge results = Returns cls' (results ++ new) /\
    forall r, r ∈ new ->
      exists c m rest,
        cls !! cloud_index_ r = Some c /\
        fit (cloud_ r) 1%Z (build c) confidence_cutoff = m :: rest /\
        object_id_ r = getModelId m /\
        pose_ r = getPose m /\
        (confidence_cutoff <= 1 - (1 - getScore m) * (1 - getScore m))%Q /\
        confidence_ r
        = float_of_double (1 - (1 - getScore m) * (1 - getScore m))%Q.
Proof.
  intros Hn.
  destruct (detection_report cls perform_fit_merge results Hn)
    as (v & new & i' & _ & Hd & Hnew & _ & _ & Hrefit).
  exists (clusters v), new. split; [exact Hd|].
  intros r Hr. destruct (Hnew r Hr) as (Hlt & Hown & m & rest & Hfit & Hle & Er).
  destruct (lookup_lt_is_Some_2 cls (cloud_index_ r) Hlt) as (c & Hc).
  exists c, m, rest. split; [exact Hc|].
  apply own_index_small in Hown; [|lia].
  specialize (Hrefit (cloud_index_ r) Hlt Hown). cbn [loop_v] in Hrefit.
  rewrite Hfit in Hrefit. injection Hrefit as Hrefit.
  assert (Hcloud : cloud_ r = clusters v !!! cloud_index_ r)
    by (rewrite Er at 1; reflexivity).
  split.
  { rewrite Hcloud, <- (list_lookup_total_correct _ _ _ Hc). symmetry.
    exact Hrefit. }
  rewrite Er. simpl. split; [reflexivity|]. split; [reflexivity|].
  split; [exact Hle|reflexivity].
Qed.

(** X11. With a fitter whose scores are in [[0, 1]] and a cutoff that is a
    [float], as the parameter is, the confidence of every result of a
    call is between the cutoff and [1], and not negative. *)
Theorem reported_confidence (cls : list Cluster) (perform_fit_merge : bool)
    (results : list TabletopResult) :
  (forall c k s cutoff m,
      m ∈ fit c k s cutoff -> (0 <= getScore m /\ getScore m <= 1)%Q) ->
  is_float confidence_cutoff ->
  (Z.of_nat (length cls) <= 2 ^ 31)%Z ->
  exists cls' new,
    detection cls perform_fit_merge results = Returns cls' (results ++ new) /\
    forall r, r ∈ new ->
      (confidence_cutoff <= confidence_ r /\
       0 <= confidence_ r /\ confidence_ r <= 1)%Q.
Proof.
  intros Hscore Hcut Hn.
  destruct (detection_report cls perform_fit_merge results Hn)
    as (v & new & i' & _ & Hd & Hnew & _ & _ & Hrefit).
  exists (clusters v), new. split; [exact Hd|].
  intros r Hr. destruct (Hnew r Hr) as (Hlt & Hown & m & rest & Hfit & Hle & Er).
  apply own_index_small in Hown; [|lia].
  specialize (Hrefit (cloud_index_ r) Hlt Hown). cbn [loop_v] in Hrefit.
  rewrite Hfit in Hrefit. injection Hrefit as Hrefit.
  assert (Hm : (0 <= getScore m /\ getScore m <= 1)%Q).
  { eapply Hscore. rewrite <- Hrefit. apply list_elem_of_here. }
  assert (Hrange : (0 <= getConfidence (getScore m)
                    /\ getConfidence (getScore m) <= 1)%Q).
  { unfold getConfidence. destruct Hm as (H0 & H1). split; nra. }
  rewrite Er. simpl. split; [|split].
  - apply float_le_float_of_double; assumption.
  - apply float_le_float_of_double; [exact is_float_0|apply Hrange].
  - apply float_of_double_le_float; [exact is_float_1|apply Hrange].
Qed.


(** While no iteration has merged, the locals are those the loop started
    with. *)
Lemma merge_loop_nothing_close (fuel i : nat) (v : Locals Index) :
  (forall a b, a < b -> qualifies sqrt this v a b = false) ->
  length (clusters v) - i < fuel ->
  merge_loop sqrt Index_new (returning fit) this confidence_cutoff fuel i v
  = LoopDone v.
Proof.
  intros Hfar. revert i. induction fuel as [|fuel IH]; intros i Hfuel; [lia|].
  simpl. destruct (Nat.ltb_spec i (length (clusters v))) as [Hlt|Hge];
    [|reflexivity].
  rewrite merge_iteration_eq.
  destruct (merged_index sqrt this i v) as [j|] eqn:Hp.
  - apply merged_index_Some in Hp as (_ & _ & Hij & Hq & _).
    rewrite Hfar in Hq by lia. discriminate.
  - apply IH. lia.
Qed.

(** X12. If no two of the first fits of the clusters are closer than the
    threshold, the merge changes nothing: the call does with the merge
    what it does without. *)
Theorem merge_without_close_fits (cls : list Cluster)
    (results : list TabletopResult) :
  (forall a b ma mb, a < b ->
      fit_at (first_fits build fit confidence_cutoff cls) a = Some ma ->
      fit_at (first_fits build fit confidence_cutoff cls) b = Some mb ->
      (fit_merge_threshold_ this <= fitDistance sqrt ma mb)%Q) ->
  detection cls true results = detection cls false results.
Proof.
  intros Hfar. unfold objectDetection, merged. rewrite fitted_returning.
  change (map (fun c => fit c 1%Z (build c) confidence_cutoff) cls)
    with (first_fits build fit confidence_cutoff cls).
  rewrite merge_loop_nothing_close; [reflexivity| |unfold merge_fuel; simpl; lia].
  intros a b Hab. unfold qualifies, close_fit. simpl.
  destruct (fit_at (first_fits build fit confidence_cutoff cls) a)
    as [ma|] eqn:Ha;
    [|rewrite andb_false_r, andb_false_r; reflexivity].
  destruct (fit_at (first_fits build fit confidence_cutoff cls) b)
    as [mb|] eqn:Hb;
    [|rewrite andb_false_r, andb_false_r; reflexivity].
  rewrite (proj2 (Qltb_ge _ _) (Hfar a b ma mb Hab Ha Hb)).
  rewrite andb_false_r, andb_false_r. reflexivity.
Qed.
End Reports.

(** *** The casts, the distance of two fits, and [results] *)

(** X5. Converting a [size_t] value to [int] and back, as the comparisons
    with [(int) i] do, gives the value again exactly for the values below
    [2^31] and for the [2^31] largest ones; for every other index the
    comparison [cluster_model_indices[i] != (int) i] holds even though
    the index points at itself. *)
Theorem cast_round_trip (k : Z) :
  (0 <= k < 2 ^ 64)%Z ->
  size_t_of_int (int_of_size_t k) = k <->
  (k < 2 ^ 31 \/ 2 ^ 64 - 2 ^ 31 <= k)%Z.
Proof.
  intros Hk. unfold size_t_of_int, int_of_size_t.
  change (2 ^ 64)%Z with 18446744073709551616%Z in *.
  change (2 ^ 32)%Z with 4294967296%Z in *.
  change (2 ^ 31)%Z with 2147483648%Z in *.
  destruct (Z.ltb_spec (k mod 4294967296) 2147483648);
    Z.to_euclidean_division_equations; lia.
Qed.

Lemma Qltb_proper (a b c : Q) : (a == b)%Q -> Qltb a c = Qltb b c.
Proof.
  intros Hab. unfold Qltb. f_equal.
  apply Qleb_comp; [reflexivity | exact Hab].
Qed.

(** X3. With a square root that gives equal roots for equal numbers, the
    distance of two fits is the same in both directions, and so is the
    test against the threshold: which of two clusters is the outer one
    does not matter for whether their fits are close.  Two fits at the
    same place in the plane are at the distance [sqrt 0]. *)
Theorem fitDistance_symmetric (sqrt : Q -> Q) (m1 m2 : ModelFitInfo) :
  (forall a b : Q, a == b -> sqrt a == sqrt b)%Q ->
  (fitDistance sqrt m1 m2 == fitDistance sqrt m2 m1)%Q /\
  (forall threshold,
      Qltb (fitDistance sqrt m1 m2) threshold
      = Qltb (fitDistance sqrt m2 m1) threshold) /\
  (x (position (getPose m1)) = x (position (getPose m2)) ->
   y (position (getPose m1)) = y (position (getPose m2)) ->
   (fitDistance sqrt m1 m2 == sqrt 0)%Q).
Proof.
  intros Hsqrt.
  assert (Hsym : (fitDistance sqrt m1 m2 == fitDistance sqrt m2 m1)%Q)
    by (unfold fitDistance; apply Hsqrt; ring).
  split; [exact Hsym|]. split.
  - intros threshold. apply Qltb_proper, Hsym.
  - intros Hx Hy. unfold fitDistance. rewrite Hx, Hy. apply Hsqrt. ring.
Qed.

Section Appending.
Context (sqrt : Q -> Q) {Index : Type} (Index_new : Index).
Context (build : Cluster -> Index).
Context (fitBestModels : Cluster -> Z -> Index -> Q -> FitOutcome).
Context (this : TabletopObjectRecognizer) (confidence_cutoff : Q).

(** X13. What a call appends to [results], and what it does to the clusters,
    does not depend on what [results] holds: it is what the call appends
    to an empty [results]. *)
Theorem results_independent (cls : list Cluster) (perform_fit_merge : bool)
    (results : list TabletopResult) :
  objectDetection sqrt Index_new build fitBestModels this confidence_cutoff
                  cls perform_fit_merge results
  = match objectDetection sqrt Index_new build fitBestModels this
                          confidence_cutoff cls perform_fit_merge [] with
    | Returns cls' new => Returns cls' (results ++ new)
    | Throws cls' _ => Throws cls' results
    | OutOfFuel => OutOfFuel
    end.
Proof.
  unfold objectDetection.
  destruct (merged _ _ _ _ _ _ _ _) as [[v|v|]|]; try reflexivity.
  rewrite !assemble_omap. reflexivity.
Qed.
End Appending.

Lemma sqrt_Q_proper (a b : Q) : (a == b)%Q -> (sqrt_Q a == sqrt_Q b)%Q.
Proof.
  intros Hab. unfold sqrt_Q.
  assert (Hdiv : (Qnum a * 10 ^ 18 / Zpos (Qden a)
                  = Qnum b * 10 ^ 18 / Zpos (Qden b))%Z).
  { unfold Qeq in Hab.
    rewrite <- (Z.div_mul_cancel_r (Qnum a * 10 ^ 18) (Zpos (Qden a))
                                   (Zpos (Qden b))) by lia.
    rewrite <- (Z.div_mul_cancel_r (Qnum b * 10 ^ 18) (Zpos (Qden b))
                                   (Zpos (Qden a))) by lia.
    f_equal; [|lia].
    transitivity (Qnum a * Zpos (Qden b) * 10 ^ 18)%Z; [ring|].
    rewrite Hab. ring. }
  rewrite Hdiv. reflexivity.
Defined.

(** *** The further properties at concrete calls *)

Lemma cast_round_trip_witness :
  (0 <= 2 ^ 31 < 2 ^ 64)%Z /\
  size_t_of_int (int_of_size_t (2 ^ 31)) <> (2 ^ 31)%Z.
Proof.
  assert (Hk : (0 <= 2 ^ 31 < 2 ^ 64)%Z) by (split; [discriminate|reflexivity]).
  split; [exact Hk|].
  intros Heq. apply (cast_round_trip (2 ^ 31) Hk) in Heq.
  destruct Heq as [Hlt|Hge]; [discriminate Hlt | apply Hge; reflexivity].
Defined.

Lemma fitDistance_symmetric_witness :
  (fitDistance sqrt_Q (fit_at_xy 0 0) (fit_at_xy 0.01 0)
   == fitDistance sqrt_Q (fit_at_xy 0.01 0) (fit_at_xy 0 0))%Q /\
  (fitDistance sqrt_Q (fit_at_xy 0.01 0) (fit_at_xy 0.01 0) == sqrt_Q 0)%Q.
Proof.
  split.
  - exact (proj1 (fitDistance_symmetric sqrt_Q (fit_at_xy 0 0)
                    (fit_at_xy 0.01 0) sqrt_Q_proper)).
  - exact (proj2 (proj2 (fitDistance_symmetric sqrt_Q (fit_at_xy 0.01 0)
                           (fit_at_xy 0.01 0) sqrt_Q_proper))
                 eq_refl eq_refl).
Defined.

(** Scenario A: the merge loop is over after four iterations. *)
Lemma merge_loop_iterations_witness :
  (Z.of_nat (length scenario_A) <= 2 ^ 31)%Z /\
  2 * length scenario_A <= 5 /\
  final (merge_after sqrt_Q PointIndex_new (returning centroid_fitter)
           TabletopObjectRecognizer_new 0.5 5 (start 0.5 scenario_A)).
Proof.
  assert (Hn : (Z.of_nat (length scenario_A) <= 2 ^ 31)%Z)
    by (apply few_clusters; reflexivity).
  assert (Ht : 2 * length scenario_A <= 5) by (simpl; lia).
  split; [exact Hn|]. split; [exact Ht|].
  exact (proj1 (merge_loop_iterations sqrt_Q PointIndex_new PointIndex_build
                  (returning centroid_fitter) TabletopObjectRecognizer_new
                  0.5 scenario_A (loop_v (start 0.5 scenario_A)) 5
                  Hn eq_refl Ht)).
Defined.

(** [three_fragments]: two merges at most. *)
Lemma merges_bounded_witness :
  (Z.of_nat (length three_fragments) <= 2 ^ 31)%Z /\
  length (merged_away sqrt_Q PointIndex_new (returning centroid_fitter)
            TabletopObjectRecognizer_new 0.5 6 (start 0.5 three_fragments))
  <= length three_fragments - 1.
Proof.
  assert (Hn : (Z.of_nat (length three_fragments) <= 2 ^ 31)%Z)
    by (apply few_clusters; reflexivity).
  split; [exact Hn|].
  exact (proj2 (proj2 (merges_bounded sqrt_Q PointIndex_new PointIndex_build
                         (returning centroid_fitter)
                         TabletopObjectRecognizer_new 0.5 three_fragments
                         (loop_v (start 0.5 three_fragments)) 6
                         Hn eq_refl))).
Defined.

(** [three_fragments] with the merge: three clusters after the call. *)
Lemma clusters_only_extended_witness :
  (Z.of_nat (length three_fragments) <= 2 ^ 31)%Z /\
  match detect (returning centroid_fitter) 0.5 three_fragments true [] with
  | Returns cls' _ => length cls' = length three_fragments
  | Throws cls' _ => length cls' = length three_fragments
  | OutOfFuel => False
  end.
Proof.
  assert (Hn : (Z.of_nat (length three_fragments) <= 2 ^ 31)%Z)
    by (apply few_clusters; reflexivity).
  split; [exact Hn|].
  pose proof (clusters_only_extended sqrt_Q PointIndex_new PointIndex_build
                (returning centroid_fitter) TabletopObjectRecognizer_new 0.5
                three_fragments true [] Hn) as H.
  unfold detect.
  destruct (objectDetection _ _ _ _ _ _ _ _ _) as [c r|c r|];
    [exact (proj1 H) | exact (proj1 H) | exact H].
Defined.

(** Scenario A with the merge: the cloud of every result is made of the
    input clusters that point at it. *)
Lemma reported_cloud_witness :
  (Z.of_nat (length scenario_A) <= 2 ^ 31)%Z /\
  exists (v : Locals PointIndex) new,
    detect (returning centroid_fitter) 0.5 scenario_A true []
    = Returns (clusters v) ([] ++ new) /\
    forall r, r ∈ new ->
      cloud_ r ≡ₚ gathered scenario_A (cluster_model_indices v)
                           (cloud_index_ r).
Proof.
  assert (Hn : (Z.of_nat (length scenario_A) <= 2 ^ 31)%Z)
    by (apply few_clusters; reflexivity).
  split; [exact Hn|].
  destruct (reported_cloud sqrt_Q PointIndex_new PointIndex_build
              TabletopObjectRecognizer_new 0.5 centroid_fitter
              scenario_A true [] Hn) as (v & new & _ & Hd & Hcloud & _).
  exists v, new. split; [exact Hd|].
  intros r Hr. exact (proj1 (Hcloud r Hr)).
Defined.

(** Scenario A with the merge: every result carries the first fit of
    the fitter on its cloud. *)
Lemma reported_fit_witness :
  (Z.of_nat (length scenario_A) <= 2 ^ 31)%Z /\
  exists cls' new,
    detect (returning centroid_fitter) 0.5 scenario_A true []
    = Returns cls' ([] ++ new) /\
    forall r, r ∈ new ->
      exists c m rest,
        scenario_A !! cloud_index_ r = Some c /\
        centroid_fitter (cloud_ r) 1 (PointIndex_build c) 0.5 = m :: rest /\
        pose_ r = getPose m /\
        confidence_ r
        = float_of_double (1 - (1 - getScore m) * (1 - getScore m))%Q.
Proof.
  assert (Hn : (Z.of_nat (length scenario_A) <= 2 ^ 31)%Z)
    by (apply few_clusters; reflexivity).
  split; [exact Hn|].
  destruct (reported_fit sqrt_Q PointIndex_new PointIndex_build
              TabletopObjectRecognizer_new 0.5 centroid_fitter
              scenario_A true [] Hn) as (cls' & new & Hd & Hfit).
  exists cls', new. split; [exact Hd|].
  intros r Hr.
  destruct (Hfit r Hr) as (c & m & rest & Hc & Hm & _ & Hp & _ & Hconf).
  exists c, m, rest. split; [exact Hc|]. split; [exact Hm|].
  split; [exact Hp | exact Hconf].
Defined.

Lemma centroid_fitter_score (c : Cluster) (k : Z) (s : PointIndex)
    (cutoff : Q) (m : ModelFitInfo) :
  m ∈ centroid_fitter c k s cutoff ->
  (0 <= getScore m /\ getScore m <= 1)%Q.
Proof.
  unfold centroid_fitter. destruct c as [|p c]; [intros H; inversion H|].
  destruct (Z.to_nat k) as [|n]; simpl; [intros H; inversion H|].
  rewrite take_nil. intros H. apply list_elem_of_singleton in H. subst m.
  simpl. split; intros H; discriminate H.
Defined.

(** Scenario A with the merge and [centroid_fitter], whose scores are
    [0.9], and the cutoff [0.5], a [float]: the confidence of every
    result is between [0.5] and [1]. *)
Lemma reported_confidence_witness :
  is_float 0.5 /\
  (Z.of_nat (length scenario_A) <= 2 ^ 31)%Z /\
  exists cls' new,
    detect (returning centroid_fitter) 0.5 scenario_A true []
    = Returns cls' ([] ++ new) /\
    forall r, r ∈ new ->
      (0.5 <= confidence_ r /\ 0 <= confidence_ r /\ confidence_ r <= 1)%Q.
Proof.
  assert (Hcut : is_float 0.5)
    by (split; [reflexivity | split; intros H; discriminate H]).
  assert (Hn : (Z.of_nat (length scenario_A) <= 2 ^ 31)%Z)
    by (apply few_clusters; reflexivity).
  split; [exact Hcut|]. split; [exact Hn|].
  exact (reported_confidence sqrt_Q PointIndex_new PointIndex_build
           TabletopObjectRecognizer_new 0.5 centroid_fitter
           scenario_A true [] centroid_fitter_score Hcut Hn).
Defined.


(** [far_apart]: the fits are [1] apart, and the call does the same with
    and without the merge. *)
Lemma merge_without_close_fits_witness :
  detect (returning centroid_fitter) 0.5 far_apart true []
  = detect (returning centroid_fitter) 0.5 far_apart false [].
Proof.
  apply (merge_without_close_fits sqrt_Q PointIndex_new PointIndex_build
           TabletopObjectRecognizer_new 0.5 centroid_fitter far_apart []).
  intros a b ma mb Hab Ha Hb.
  destruct a as [|[|a]]; destruct b as [|[|b]];
    try (exfalso; lia); try discriminate Ha; try discriminate Hb.
  injection Ha as <-. injection Hb as <-. intros H. discriminate H.
Defined.
